(** * libjuice: transport addresses ([src/addr.c])

    A shallow embedding of [addr.c] and the properties of its functions.

    The C code reinterprets one buffer as [struct sockaddr],
    [struct sockaddr_in], [struct sockaddr_in6] or
    [struct sockaddr_storage] according to the family tag stored in its
    first bytes.  The embedding keeps that view: an address is the list of
    bytes its pointer designates, a field is an offset into that list, and
    a function that writes through its pointer returns the new bytes next
    to its C result.

    The warnings sent to the logging facility ([JLOG_WARN]) carry no value
    back into the functions and are left out. *)

From Stdlib Require Import ZArith Strings.Byte Strings.String.
From stdpp Require Import base tactics option list.

Local Open Scope Z_scope.

(** ** Bytes and memory *)

Module Mem.

(** The value of a byte as an [unsigned char]. *)
Definition u8 (b : byte) : Z := Z.of_N (Byte.to_N b).

(** Conversion to [uint8_t]: the low eight bits. *)
Definition to_u8 (z : Z) : byte :=
  default x00 (Byte.of_N (Z.to_N (Z.land z 255))).

(** [p[i]] for a byte pointer [p]; bytes outside of the modelled object
    read as zero. *)
Definition load8 (m : list byte) (i : nat) : byte := default x00 (m !! i).

(** [p[i] = b]; a store outside of the modelled object is dropped. *)
Definition store8 (m : list byte) (i : nat) (b : byte) : list byte :=
  <[i:=b]> m.

(** A [uint16_t] field at offset [off], in host byte order
    (little-endian). *)
Definition load16 (m : list byte) (off : nat) : Z :=
  Z.lor (u8 (load8 m off)) (Z.shiftl (u8 (load8 m (S off))) 8).

Definition store16 (m : list byte) (off : nat) (v : Z) : list byte :=
  store8 (store8 m off (to_u8 v)) (S off) (to_u8 (Z.shiftr v 8)).

(** [memset(m + off, c, n)] *)
Fixpoint memset (m : list byte) (off : nat) (c : byte) (n : nat)
  : list byte :=
  match n with
  | O => m
  | S n' => memset (store8 m off c) (S off) c n'
  end.

(** [memcpy(dst + doff, src + soff, n)], for objects that do not
    overlap. *)
Fixpoint memcpy (dst : list byte) (doff : nat) (src : list byte) (soff : nat)
    (n : nat) : list byte :=
  match n with
  | O => dst
  | S n' => memcpy (store8 dst doff (load8 src soff)) (S doff) src (S soff) n'
  end.

(** [memcmp(a + aoff, b + boff, n)]: the difference of the first pair of
    bytes that differ, zero when there is none. *)
Fixpoint memcmp (a : list byte) (aoff : nat) (b : list byte) (boff : nat)
    (n : nat) : Z :=
  match n with
  | O => 0
  | S n' =>
      let d := u8 (load8 a aoff) - u8 (load8 b boff) in
      if d =? 0 then memcmp a (S aoff) b (S boff) n' else d
  end.

(** The [n] bytes at offset [off]. *)
Definition bytes_at (m : list byte) (off n : nat) : list byte :=
  map (load8 m) (seq off n).

End Mem.
Import Mem.

(** ** Platform declarations *)

(** Modelled from the spec: the socket headers of the platform
    ([<sys/socket.h>], [<netinet/in.h>], [<netdb.h>]) are not part of the
    repository.  The constants, structure sizes and field offsets below are
    those of the Linux ABI on a little-endian machine, where [sa_family_t]
    is an [unsigned short] at offset 0 (the code prints it with [%hu]). *)
Definition AF_UNSPEC : Z := 0.
Definition AF_INET : Z := 2.
Definition AF_INET6 : Z := 10.
Definition SOCK_DGRAM : Z := 2.
Definition IPPROTO_UDP : Z := 17.
Definition AI_ADDRCONFIG : Z := 32.
Definition INT_MAX : Z := 2147483647.

Definition sizeof_sockaddr_in : nat := 16.
Definition sizeof_sockaddr_in6 : nat := 28.
Definition sizeof_sockaddr_storage : nat := 128.

(** [offsetof(struct sockaddr, sa_family)], and the same offset for
    [sin_family], [sin6_family] and [ss_family]. *)
Definition sa_family_off : nat := 0.
Definition sin_port_off : nat := 2.
Definition sin_addr_off : nat := 4.
Definition sin6_port_off : nat := 2.
Definition sin6_flowinfo_off : nat := 4.
Definition sin6_addr_off : nat := 8.
Definition sin6_scope_id_off : nat := 24.

(** Modelled from the spec: [htons] and [ntohs] of [<arpa/inet.h>]; on a
    little-endian host both swap the two bytes of a [uint16_t]. *)
Definition htons (x : Z) : Z :=
  Z.lor (Z.shiftl (Z.land x 255) 8) (Z.land (Z.shiftr x 8) 255).
Definition ntohs (x : Z) : Z := htons x.

(** An address is the storage behind a [struct sockaddr *]. *)
Abbreviation sockaddr := (list byte).

(** [sa->sa_family] *)
Definition sa_family (sa : sockaddr) : Z := load16 sa sa_family_off.

(** Modelled from the spec: the classification macros of [<netinet/in.h>]
    on the sixteen bytes of a [struct in6_addr] that starts at offset [a]:
    the loopback address [::1], the link-local prefix [fe80::/10] and the
    IPv4-mapped prefix [::ffff:0:0/96] ("the loopback address or a
    link-local address (per standard prefix ranges)", "the standard mapped
    prefix (10 zero bytes, 2 bytes of 0xFF)"). *)
Definition IN6_IS_ADDR_LOOPBACK (m : list byte) (a : nat) : bool :=
  forallb (fun i => u8 (load8 m (a + i)) =? 0) (seq 0 15)
  && (u8 (load8 m (a + 15)) =? 1).

Definition IN6_IS_ADDR_LINKLOCAL (m : list byte) (a : nat) : bool :=
  (u8 (load8 m a) =? 254)
  && (Z.land (u8 (load8 m (a + 1))) 192 =? 128).

Definition IN6_IS_ADDR_V4MAPPED (m : list byte) (a : nat) : bool :=
  forallb (fun i => u8 (load8 m (a + i)) =? 0) (seq 0 10)
  && (u8 (load8 m (a + 10)) =? 255)
  && (u8 (load8 m (a + 11)) =? 255).

(** ** Family-dispatch accessors *)

(** [socklen_t addr_get_len(const struct sockaddr *sa)] *)
Definition addr_get_len (sa : sockaddr) : Z :=
  if sa_family sa =? AF_INET then Z.of_nat sizeof_sockaddr_in
  else if sa_family sa =? AF_INET6 then Z.of_nat sizeof_sockaddr_in6
  else 0.

(** [uint16_t addr_get_port(const struct sockaddr *sa)] *)
Definition addr_get_port (sa : sockaddr) : Z :=
  if sa_family sa =? AF_INET then ntohs (load16 sa sin_port_off)
  else if sa_family sa =? AF_INET6 then ntohs (load16 sa sin6_port_off)
  else 0.

(** [int addr_set_port(struct sockaddr *sa, uint16_t port)]: the C result
    and the bytes behind [sa] afterwards. *)
Definition addr_set_port (sa : sockaddr) (port : Z) : Z * sockaddr :=
  if sa_family sa =? AF_INET then (0, store16 sa sin_port_off (htons port))
  else if sa_family sa =? AF_INET6 then
    (0, store16 sa sin6_port_off (htons port))
  else (-1, sa).

(** ** Locality and temporariness *)

(** [bool addr_is_local(struct sockaddr *sa)] *)
Definition addr_is_local (sa : sockaddr) : bool :=
  if sa_family sa =? AF_INET then
    let b := sin_addr_off in
    if u8 (load8 sa b) =? 127 then true
    else if (u8 (load8 sa b) =? 169) && (u8 (load8 sa (b + 1)) =? 254)
    then true
    else false
  else if sa_family sa =? AF_INET6 then
    if IN6_IS_ADDR_LOOPBACK sa sin6_addr_off then true
    else if IN6_IS_ADDR_LINKLOCAL sa sin6_addr_off then true
    else if IN6_IS_ADDR_V4MAPPED sa sin6_addr_off then
      let b := (sin6_addr_off + 12)%nat in
      if u8 (load8 sa b) =? 127 then true
      else if (u8 (load8 sa b) =? 169) && (u8 (load8 sa (b + 1)) =? 254)
      then true
      else false
    else false
  else false.

(** [bool addr_is_temp_inet6(struct sockaddr *sa)] *)
Definition addr_is_temp_inet6 (sa : sockaddr) : bool :=
  if negb (sa_family sa =? AF_INET6) then false
  else if addr_is_local sa then false
  else
    if negb (Z.land (u8 (load8 sa (sin6_addr_off + 8))) 2 =? 0) then false
    else true.

(** ** IPv4-mapped IPv6 conversion *)

(** [bool addr_unmap_inet6_v4mapped(struct sockaddr *sa, socklen_t *len)]:
    the C result, the bytes behind [sa] and the value behind [len]
    afterwards. *)
Definition addr_unmap_inet6_v4mapped (sa : sockaddr) (len : Z)
  : bool * sockaddr * Z :=
  if negb (sa_family sa =? AF_INET6) then (false, sa, len)
  else if negb (IN6_IS_ADDR_V4MAPPED sa sin6_addr_off) then (false, sa, len)
  else
    (* struct sockaddr_in6 copy = *sin6 *)
    let copy := bytes_at sa 0 sizeof_sockaddr_in6 in
    let sa := memset sa 0 x00 sizeof_sockaddr_in in
    let sa := store16 sa sa_family_off AF_INET in
    let sa := store16 sa sin_port_off (load16 copy sin6_port_off) in
    let sa := memcpy sa sin_addr_off copy (sin6_addr_off + 12) 4 in
    (true, sa, Z.of_nat sizeof_sockaddr_in).

(** [bool addr_map_inet6_v4mapped(struct sockaddr_storage *ss,
    socklen_t *len)] *)
Definition addr_map_inet6_v4mapped (ss : sockaddr) (len : Z)
  : bool * sockaddr * Z :=
  if negb (sa_family ss =? AF_INET) then (false, ss, len)
  else
    (* struct sockaddr_in copy = *sin *)
    let copy := bytes_at ss 0 sizeof_sockaddr_in in
    let ss := memset ss 0 x00 sizeof_sockaddr_in6 in
    let ss := store16 ss sa_family_off AF_INET6 in
    let ss := store16 ss sin6_port_off (load16 copy sin_port_off) in
    let b := sin6_addr_off in
    let ss := memset ss b x00 10 in
    let ss := memset ss (b + 10) xff 2 in
    let ss := memcpy ss (b + 12) copy sin_addr_off 4 in
    (true, ss, Z.of_nat sizeof_sockaddr_in6).

(** ** Equality *)

(** [bool addr_is_equal(const struct sockaddr *a, const struct sockaddr *b,
    bool compare_ports)] *)
Definition addr_is_equal (a b : sockaddr) (compare_ports : bool) : bool :=
  if negb (sa_family a =? sa_family b) then false
  else if sa_family a =? AF_INET then
    if negb (memcmp a sin_addr_off b sin_addr_off 4 =? 0) then false
    else if compare_ports
            && negb (load16 a sin_port_off =? load16 b sin_port_off)
    then false
    else true
  else if sa_family a =? AF_INET6 then
    if negb (memcmp a sin6_addr_off b sin6_addr_off 16 =? 0) then false
    else if compare_ports
            && negb (load16 a sin6_port_off =? load16 b sin6_port_off)
    then false
    else true
  else false.

(** ** Resolution *)

(** Modelled from the spec: [addr_record_t] of [addr.h], which is not
    among the sources: "a tuple of (encoded address bytes, encoded
    length)", the address being a [struct sockaddr_storage] and the length
    a [socklen_t]. *)
Record addr_record_t := mk_addr_record { addr : list byte; len : Z }.

(** Modelled from the spec: [struct addrinfo] of [<netdb.h>].  The chain
    of [ai_next] pointers that [getaddrinfo] hands back is the list of its
    nodes. *)
Record addrinfo := mk_addrinfo {
  ai_flags : Z;
  ai_family : Z;
  ai_socktype : Z;
  ai_protocol : Z;
  ai_addrlen : Z;
  ai_addr : list byte
}.

(** What the resolver promises of a node it hands back: [ai_addr] points
    to [ai_addrlen] bytes, an address that fits a
    [struct sockaddr_storage]. *)
Definition addrinfo_ok (ai : addrinfo) : Prop :=
  length (ai_addr ai) = Z.to_nat (ai_addrlen ai)
  ∧ (Z.to_nat (ai_addrlen ai) ≤ sizeof_sockaddr_storage)%nat.

(** The platform resolver, an external collaborator: from the host name,
    the service and the hints to its return code (zero on success) and
    the candidates stored through its last argument. *)
Class Resolver := {
  getaddrinfo : string → string → addrinfo → Z * list addrinfo;
  getaddrinfo_nodes hostname service hints rc ai_list :
    getaddrinfo hostname service hints = (rc, ai_list) →
    Forall addrinfo_ok ai_list
}.

(** [++ret] on an [int], two's complement. *)
Definition int_incr (r : Z) : Z := (r + 1 + 2 ^ 31) mod 2 ^ 32 - 2 ^ 31.

(** [memcpy(&records->addr, ai->ai_addr, ai->ai_addrlen);
    records->len = ai->ai_addrlen;] *)
Definition write_record (ai : addrinfo) (r : addr_record_t) : addr_record_t :=
  {| addr := memcpy (addr r) 0 (ai_addr ai) 0 (Z.to_nat (ai_addrlen ai));
     len := ai_addrlen ai |}.

(** The loop of [addr_resolve] from the node [ai] on.  [arr] is the array
    of the caller, [records] and [end_] are the indices in [arr] of the
    two pointers of the same names. *)
Fixpoint resolve_loop (ai : list addrinfo) (ret : Z) (records end_ : nat)
    (arr : list addr_record_t) : Z * list addr_record_t :=
  match ai with
  | [] => (ret, arr)
  | a :: ai_next =>
      if (ai_family a =? AF_INET) || (ai_family a =? AF_INET6) then
        let ret := int_incr ret in
        if negb (records =? end_)%nat then
          resolve_loop ai_next ret (S records) end_
            (alter (write_record a) records arr)
        else resolve_loop ai_next ret records end_ arr
      else resolve_loop ai_next ret records end_ arr
  end.

(** The hints [addr_resolve] builds for the resolver: a zeroed
    [struct addrinfo] with four fields set. *)
Definition addr_resolve_hints : addrinfo :=
  {| ai_flags := AI_ADDRCONFIG; ai_family := AF_UNSPEC;
     ai_socktype := SOCK_DGRAM; ai_protocol := IPPROTO_UDP;
     ai_addrlen := 0; ai_addr := [] |}.

(** [int addr_resolve(const char *hostname, const char *service,
    addr_record_t *records, size_t count)]: the C result and the array
    behind [records] afterwards. *)
Definition addr_resolve `{Resolver} (hostname service : string)
    (records : list addr_record_t) (count : nat)
  : Z * list addr_record_t :=
  let end_ := (0 + count)%nat in
  let hints := addr_resolve_hints in
  let '(rc, ai_list) := getaddrinfo hostname service hints in
  if negb (rc =? 0) then (-1, records)
  else resolve_loop ai_list 0 0%nat end_ records.

(** ** The classes of addresses, in the words of the specification *)

Module Spec.

(** "candidate addresses whose family is IPv4 or IPv6" *)
Definition candidate (ai : addrinfo) : bool :=
  (ai_family ai =? AF_INET) || (ai_family ai =? AF_INET6).

(** "the first octet is 127 (loopback) or the first two octets are
    169.254 (link-local)", of the octets [a] of an IPv4 address. *)
Definition ipv4_local (a : list byte) : Prop :=
  take 1 (map u8 a) = [127] ∨ take 2 (map u8 a) = [169; 254].

(** The loopback address [::1], of the sixteen octets [a] of an IPv6
    address. *)
Definition in6_loopback (a : list byte) : Prop :=
  map u8 a = [0; 0; 0; 0; 0; 0; 0; 0; 0; 0; 0; 0; 0; 0; 0; 1].

(** A link-local address, one of the prefix [fe80::/10]: its first ten
    bits are those of [0xfe80]. *)
Definition in6_linklocal (a : list byte) : Prop :=
  match map u8 a with
  | o0 :: o1 :: _ => (256 * o0 + o1) / 64 = 65152 / 64
  | _ => False
  end.

(** An IPv4-mapped address [::ffff:a.b.c.d]: ten zero octets, then two
    octets [0xff]; its last four octets are the IPv4 address. *)
Definition in6_v4mapped (a : list byte) : Prop :=
  take 12 (map u8 a) = [0; 0; 0; 0; 0; 0; 0; 0; 0; 0; 255; 255].

End Spec.

(** ** Sample addresses *)

Module Samples.

(** A [struct sockaddr_storage] filled with zeroes and then with the
    given leading bytes. *)
Definition storage (head : list Z) : sockaddr :=
  let bs := map to_u8 head in
  bs ++ replicate (sizeof_sockaddr_storage - length bs) x00.

(** [a.b.c.d:port] as a [struct sockaddr_in]. *)
Definition inet (a b c d port : Z) : sockaddr :=
  storage [AF_INET; 0; Z.shiftr port 8; port; a; b; c; d].

(** An IPv6 address and port as a [struct sockaddr_in6], with no flow
    information and no scope. *)
Definition inet6 (a : list Z) (port : Z) : sockaddr :=
  storage ([AF_INET6; 0; Z.shiftr port 8; port; 0; 0; 0; 0] ++ a).

(** A record whose family is [AF_UNSPEC]. *)
Definition unspec : sockaddr := storage [].

Definition v4mapped (a b c d : Z) : list Z :=
  [0; 0; 0; 0; 0; 0; 0; 0; 0; 0; 255; 255; a; b; c; d].
Definition in6_loopback : list Z :=
  [0; 0; 0; 0; 0; 0; 0; 0; 0; 0; 0; 0; 0; 0; 0; 1].
Definition in6_linklocal : list Z :=
  [254; 128; 0; 0; 0; 0; 0; 0; 2; 0; 0; 0; 0; 0; 0; 1].
(** [2001:db8::211:22ff:fe33:4455], an interface identifier derived
    from a hardware address. *)
Definition in6_global_eui64 : list Z :=
  [32; 1; 13; 184; 0; 0; 0; 0; 2; 17; 34; 255; 254; 51; 68; 85].
(** [2001:db8::1c5d:7a0f:93e2:4b61], a randomised interface
    identifier. *)
Definition in6_global_temp : list Z :=
  [32; 1; 13; 184; 0; 0; 0; 0; 28; 93; 122; 15; 147; 226; 75; 97].

(** A resolver that knows one name, [localhost], and answers for it
    with [::1], a node of a family the code does not handle, and
    [127.0.0.1]; any other name fails with [EAI_NONAME]. *)
Definition node (family : Z) (sa : sockaddr) (n : nat) : addrinfo :=
  {| ai_flags := 0; ai_family := family; ai_socktype := SOCK_DGRAM;
     ai_protocol := IPPROTO_UDP; ai_addrlen := Z.of_nat n;
     ai_addr := take n sa |}.

Definition localhost_nodes : list addrinfo :=
  [node AF_INET6 (inet6 in6_loopback 80) sizeof_sockaddr_in6;
   node 1 unspec 2;
   node AF_INET (inet 127 0 0 1 80) sizeof_sockaddr_in].

Definition lookup_name (hostname service : string) (hints : addrinfo)
  : Z * list addrinfo :=
  if String.eqb hostname "localhost" then (0, localhost_nodes)
  else (-2, []).

Lemma lookup_name_nodes hostname service hints rc ai_list :
  lookup_name hostname service hints = (rc, ai_list) →
  Forall addrinfo_ok ai_list.
Proof.
  unfold lookup_name.
  destruct (String.eqb hostname "localhost"); intros [= <- <-].
  - repeat constructor; vm_compute; lia.
  - constructor.
Qed.

Definition resolver : Resolver :=
  {| getaddrinfo := lookup_name; getaddrinfo_nodes := lookup_name_nodes |}.

(** An array of [n] records, every byte [0xff] and every length 0. *)
Definition blank_records (n : nat) : list addr_record_t :=
  replicate n {| addr := replicate sizeof_sockaddr_storage xff; len := 0 |}.

End Samples.

(** ** A resolver with two names *)

Module Samples2.
Import Samples.

(** A resolver that answers for [localhost] as the one above and for
    [loopback] with the same two addresses and no node of another
    family. *)
Definition loopback_nodes : list addrinfo :=
  [node AF_INET6 (inet6 in6_loopback 80) sizeof_sockaddr_in6;
   node AF_INET (inet 127 0 0 1 80) sizeof_sockaddr_in].

Definition lookup_name2 (hostname service : string) (hints : addrinfo)
  : Z * list addrinfo :=
  if String.eqb hostname "localhost" then (0, localhost_nodes)
  else if String.eqb hostname "loopback" then (0, loopback_nodes)
  else (-2, []).

Lemma lookup_name2_nodes hostname service hints rc ai_list :
  lookup_name2 hostname service hints = (rc, ai_list) →
  Forall addrinfo_ok ai_list.
Proof.
  unfold lookup_name2.
  destruct (String.eqb hostname "localhost");
    [|destruct (String.eqb hostname "loopback")]; intros [= <- <-].
  - repeat constructor; vm_compute; lia.
  - repeat constructor; vm_compute; lia.
  - constructor.
Qed.

Definition resolver2 : Resolver :=
  {| getaddrinfo := lookup_name2; getaddrinfo_nodes := lookup_name2_nodes |}.

End Samples2.

Section Tests.
Import Samples.

Example get_len_inet : addr_get_len (inet 8 8 8 8 53) = 16.
Proof. reflexivity. Qed.
Example get_len_inet6 : addr_get_len (inet6 in6_loopback 53) = 28.
Proof. reflexivity. Qed.
Example get_len_unspec : addr_get_len unspec = 0.
Proof. reflexivity. Qed.

Example get_port_inet : addr_get_port (inet 8 8 8 8 3478) = 3478.
Proof. reflexivity. Qed.
Example set_port_inet :
  addr_set_port (inet 8 8 8 8 3478) 65535 = (0, inet 8 8 8 8 65535).
Proof. reflexivity. Qed.
Example set_port_inet6 :
  addr_set_port (inet6 in6_global_temp 1) 443
  = (0, inet6 in6_global_temp 443).
Proof. reflexivity. Qed.

Example is_local_samples :
  map addr_is_local
    [inet 127 0 0 1 80; inet 169 254 1 1 80; inet6 in6_loopback 80;
     inet6 in6_linklocal 80; inet6 (v4mapped 127 0 0 1) 80;
     inet 8 8 8 8 80; inet6 in6_global_temp 80; unspec]
  = [true; true; true; true; true; false; false; false].
Proof. reflexivity. Qed.

Example is_temp_samples :
  map addr_is_temp_inet6
    [inet6 in6_global_temp 80; inet6 in6_global_eui64 80;
     inet6 in6_linklocal 80; inet 8 8 8 8 80;
     inet6 (v4mapped 8 8 8 8) 80]
  = [true; false; false; false; true].
Proof. reflexivity. Qed.

Example map_inet :
  addr_map_inet6_v4mapped (inet 192 0 2 7 3478) 16
  = (true, inet6 (v4mapped 192 0 2 7) 3478, 28).
Proof. reflexivity. Qed.

Example unmap_inet6 :
  addr_unmap_inet6_v4mapped (inet6 (v4mapped 192 0 2 7) 3478) 28
  = (true,
     storage [AF_INET; 0; 13; 150; 192; 0; 2; 7; 0; 0; 0; 0; 0; 0; 0; 0;
              0; 0; 255; 255; 192; 0; 2; 7], 16).
Proof. reflexivity. Qed.

Example is_equal_samples :
  map (fun '(a, b, p) => addr_is_equal a b p)
    [(inet 8 8 8 8 1, inet 8 8 8 8 1, true);
     (inet 8 8 8 8 1, inet 8 8 8 8 2, true);
     (inet 8 8 8 8 1, inet 8 8 8 8 2, false);
     (inet 8 8 8 8 1, inet 8 8 4 4 1, false);
     (inet 127 0 0 1 1, inet6 (v4mapped 127 0 0 1) 1, false);
     (unspec, unspec, false)]
  = [true; false; true; false; false; false].
Proof. reflexivity. Qed.

Example resolve_capacity_0 :
  @addr_resolve resolver "localhost" "80" (blank_records 2) 0
  = (2, blank_records 2).
Proof. reflexivity. Qed.

Example resolve_capacity_1 :
  @addr_resolve resolver "localhost" "80" (blank_records 2) 1
  = (2, [write_record (node AF_INET6 (inet6 in6_loopback 80) 28)
           {| addr := replicate sizeof_sockaddr_storage xff; len := 0 |};
         {| addr := replicate sizeof_sockaddr_storage xff; len := 0 |}]).
Proof. reflexivity. Qed.

Example resolve_capacity_2 :
  map len (snd (@addr_resolve resolver "localhost" "80" (blank_records 2) 2))
  = [28; 16].
Proof. reflexivity. Qed.

Example resolve_unknown_name :
  @addr_resolve resolver "nowhere.invalid" "80" (blank_records 2) 2
  = (-1, blank_records 2).
Proof. reflexivity. Qed.

End Tests.

(** ** Facts about bytes and memory *)

Module MemFacts.

Lemma u8_range b : 0 ≤ u8 b < 256.
Proof. unfold u8. pose proof (Byte.to_N_bounded b). lia. Qed.

Lemma u8_inj a b : u8 a = u8 b → a = b.
Proof.
  unfold u8. intros H. apply N2Z.inj in H.
  pose proof (Byte.of_to_N a) as Ha. rewrite H, Byte.of_to_N in Ha.
  congruence.
Qed.

Lemma u8_to_u8 z : u8 (to_u8 z) = z mod 256.
Proof.
  unfold to_u8, u8. change 255 with (Z.ones 8).
  rewrite Z.land_ones by lia. change (2 ^ 8) with 256.
  assert (0 ≤ z mod 256 < 256) as Hr by (apply Z.mod_pos_bound; lia).
  destruct (Byte.of_N (Z.to_N (z mod 256))) as [b|] eqn:E; simpl.
  - apply Byte.to_of_N in E. rewrite E. lia.
  - apply Byte.of_N_None_iff in E. lia.
Qed.

Lemma to_u8_u8 b : to_u8 (u8 b) = b.
Proof.
  apply u8_inj. rewrite u8_to_u8. pose proof (u8_range b).
  apply Z.mod_small. lia.
Qed.

(** Two bytes side by side: the bitwise or is a sum. *)
Lemma lor_shiftl_8 lo hi : 0 ≤ lo < 256 → Z.lor lo (Z.shiftl hi 8) = lo + 256 * hi.
Proof.
  intros Hlo. rewrite Z.shiftl_mul_pow2 by lia. change (2 ^ 8) with 256.
  rewrite <- Z.lxor_lor, <- Z.add_nocarry_lxor; [lia| |].
  all: apply Z.bits_inj'; intros n Hn; rewrite Z.land_spec, Z.bits_0.
  all: destruct (Z.lt_ge_cases n 8) as [Hlt|Hge].
  all: try (replace (hi * 256) with (hi * 2 ^ 8) by lia;
            rewrite Z.mul_pow2_bits_low by lia; apply andb_false_r).
  all: replace (Z.testbit lo n) with false; [reflexivity|].
  all: symmetry; destruct (Z.eq_dec lo 0) as [->|Hz]; [apply Z.bits_0|].
  all: apply Z.bits_above_log2; [lia|].
  all: apply Z.log2_lt_pow2; [lia|].
  all: apply Z.lt_le_trans with (2 ^ 8); [lia|].
  all: apply Z.pow_le_mono_r; lia.
Qed.

Lemma htons_eq x : htons x = 256 * (x mod 256) + (x / 256) mod 256.
Proof.
  unfold htons. change 255 with (Z.ones 8).
  rewrite !Z.land_ones, Z.shiftr_div_pow2 by lia. change (2 ^ 8) with 256.
  rewrite Z.lor_comm, lor_shiftl_8; [lia|].
  apply Z.mod_pos_bound. lia.
Qed.

Lemma htons_range x : 0 ≤ htons x < 65536.
Proof.
  rewrite htons_eq.
  pose proof (Z.mod_pos_bound x 256). pose proof (Z.mod_pos_bound (x / 256) 256).
  lia.
Qed.

(** The byte swap undoes itself on a [uint16_t]. *)
Lemma ntohs_htons x : 0 ≤ x < 65536 → ntohs (htons x) = x.
Proof.
  intros Hx. unfold ntohs. rewrite (htons_eq (htons x)), (htons_eq x).
  Z.to_euclidean_division_equations. lia.
Qed.

Lemma load8_lookup (m : list byte) i b : m !! i = Some b → load8 m i = b.
Proof. unfold load8. by intros ->. Qed.

Lemma load8_ge (m : list byte) i : (length m ≤ i)%nat → load8 m i = x00.
Proof. intros H. unfold load8. by rewrite lookup_ge_None_2. Qed.

Lemma length_store8 m i b : length (store8 m i b) = length m.
Proof. apply length_insert. Qed.

Lemma load8_store8 m i b j :
  load8 (store8 m i b) j
  = if decide (i = j ∧ (i < length m)%nat) then b else load8 m j.
Proof.
  unfold load8, store8. case_decide as H.
  - destruct H as [-> H]. by rewrite list_lookup_insert_eq.
  - destruct (decide (i = j)) as [->|Hne].
    + rewrite list_insert_ge by lia. done.
    + by rewrite list_lookup_insert_ne.
Qed.

Lemma length_store16 m off v : length (store16 m off v) = length m.
Proof. unfold store16. by rewrite !length_store8. Qed.

Lemma length_memset m off c n : length (memset m off c n) = length m.
Proof.
  revert m off. induction n as [|n IH]; intros m off; simpl; [done|].
  by rewrite IH, length_store8.
Qed.

Lemma length_memcpy dst doff src soff n :
  length (memcpy dst doff src soff n) = length dst.
Proof.
  revert dst doff soff. induction n as [|n IH]; intros dst doff soff; simpl.
  - done.
  - by rewrite IH, length_store8.
Qed.

Lemma load8_memset m off c n j :
  load8 (memset m off c n) j
  = if decide ((off ≤ j < off + n)%nat ∧ (j < length m)%nat) then c
    else load8 m j.
Proof.
  revert m off. induction n as [|n IH]; intros m off; simpl.
  - case_decide; [lia|done].
  - rewrite IH, length_store8, load8_store8.
    repeat case_decide; try done; lia.
Qed.

Lemma load8_memcpy dst doff src soff n j :
  load8 (memcpy dst doff src soff n) j
  = if decide ((doff ≤ j < doff + n)%nat ∧ (j < length dst)%nat)
    then load8 src (soff + (j - doff)) else load8 dst j.
Proof.
  revert dst doff soff. induction n as [|n IH]; intros dst doff soff; simpl.
  - case_decide; [lia|done].
  - rewrite IH, length_store8, load8_store8.
    repeat case_decide; try done; try lia.
    + f_equal. lia.
    + destruct_and!. subst. f_equal. lia.
Qed.

Lemma load8_bytes_at m off n i :
  (i < n)%nat → load8 (bytes_at m off n) i = load8 m (off + i).
Proof.
  intros Hi. apply load8_lookup. unfold bytes_at.
  rewrite list_lookup_fmap, lookup_seq_lt by done. done.
Qed.

Lemma length_bytes_at m off n : length (bytes_at m off n) = n.
Proof. unfold bytes_at. by rewrite length_map, length_seq. Qed.

Lemma bytes_at_take m n : (n ≤ length m)%nat → bytes_at m 0 n = take n m.
Proof.
  intros Hn. apply list_eq. intros i. unfold bytes_at.
  rewrite list_lookup_fmap.
  destruct (decide (i < n)%nat) as [Hi|Hi].
  - rewrite lookup_seq_lt, lookup_take_lt by done. simpl.
    destruct (lookup_lt_is_Some_2 m i ltac:(lia)) as [x Hx].
    unfold load8. by rewrite Hx.
  - rewrite lookup_seq_ge, lookup_take_ge by lia. done.
Qed.

Lemma bytes_at_app m off n1 n2 :
  bytes_at m off (n1 + n2) = bytes_at m off n1 ++ bytes_at m (off + n1) n2.
Proof. unfold bytes_at. by rewrite seq_app, map_app. Qed.

(** Two ranges of memory hold the same bytes when they agree byte by
    byte. *)
Lemma bytes_at_ext m1 o1 m2 o2 n :
  (∀ i, (i < n)%nat → load8 m1 (o1 + i) = load8 m2 (o2 + i)) →
  bytes_at m1 o1 n = bytes_at m2 o2 n.
Proof.
  revert o1 o2. unfold bytes_at.
  induction n as [|n IH]; intros o1 o2 H; simpl; [done|]. f_equal.
  - specialize (H 0%nat). rewrite !Nat.add_0_r in H. apply H. lia.
  - apply IH. intros i Hi. specialize (H (S i)).
    rewrite !Nat.add_succ_r in H. apply H. lia.
Qed.

Lemma bytes_at_const m off n c :
  (∀ i, (i < n)%nat → load8 m (off + i) = c) → bytes_at m off n = replicate n c.
Proof.
  revert off. unfold bytes_at.
  induction n as [|n IH]; intros off H; simpl; [done|]. f_equal.
  - specialize (H 0%nat). rewrite Nat.add_0_r in H. apply H. lia.
  - apply IH. intros i Hi. specialize (H (S i)).
    rewrite Nat.add_succ_r in H. apply H. lia.
Qed.

Lemma load16_eq m off :
  load16 m off = u8 (load8 m off) + 256 * u8 (load8 m (S off)).
Proof. unfold load16. apply lor_shiftl_8, u8_range. Qed.

Lemma load16_range m off : 0 ≤ load16 m off < 65536.
Proof.
  rewrite load16_eq.
  pose proof (u8_range (load8 m off)). pose proof (u8_range (load8 m (S off))).
  lia.
Qed.

(** Two [uint16_t] fields are equal exactly when their bytes are. *)
Lemma load16_inj a aoff b boff :
  load16 a aoff = load16 b boff
  ↔ load8 a aoff = load8 b boff ∧ load8 a (S aoff) = load8 b (S boff).
Proof.
  rewrite !load16_eq. split.
  - intros H.
    pose proof (u8_range (load8 a aoff)). pose proof (u8_range (load8 b boff)).
    pose proof (u8_range (load8 a (S aoff))).
    pose proof (u8_range (load8 b (S boff))).
    split; apply u8_inj; lia.
  - by intros [-> ->].
Qed.

Lemma load8_store16 m off v j :
  load8 (store16 m off v) j
  = if decide (j = off ∧ (off < length m)%nat) then to_u8 v
    else if decide (j = S off ∧ (S off < length m)%nat)
         then to_u8 (Z.shiftr v 8)
         else load8 m j.
Proof.
  unfold store16. rewrite !load8_store8, length_store8.
  repeat case_decide; try done; lia.
Qed.

Lemma load16_store16 m off v :
  (S off < length m)%nat → 0 ≤ v < 65536 → load16 (store16 m off v) off = v.
Proof.
  intros Hlen Hv. rewrite load16_eq, !load8_store16.
  repeat case_decide; try lia.
  rewrite !u8_to_u8, Z.shiftr_div_pow2 by lia. change (2 ^ 8) with 256.
  Z.to_euclidean_division_equations. lia.
Qed.

(** [memcmp] returns zero exactly when the compared bytes are the
    same. *)
Lemma memcmp_0 a aoff b boff n :
  memcmp a aoff b boff n = 0 ↔ bytes_at a aoff n = bytes_at b boff n.
Proof.
  unfold bytes_at.
  revert aoff boff. induction n as [|n IH]; intros aoff boff; simpl.
  - done.
  - destruct (Z.eqb_spec (u8 (load8 a aoff) - u8 (load8 b boff)) 0) as [E|E].
    + assert (load8 a aoff = load8 b boff) as -> by (apply u8_inj; lia).
      rewrite IH. split; [by intros ->|]. by intros [=].
    + split; [lia|]. intros [= H _]. rewrite H in E. lia.
Qed.

End MemFacts.
Import MemFacts.

(** ** Family-dispatch accessors: properties *)

Lemma lookup_store16_other (m : list byte) off v i :
  ¬ (off ≤ i < off + 2)%nat → store16 m off v !! i = m !! i.
Proof.
  intros Hi. unfold store16, store8.
  rewrite !list_lookup_insert_ne by lia. done.
Qed.

Lemma load8_store16_other m off v i :
  ¬ (off ≤ i < off + 2)%nat → load8 (store16 m off v) i = load8 m i.
Proof. intros Hi. unfold load8. by rewrite lookup_store16_other. Qed.

Lemma bytes_at_store16_other m off v a n :
  (a + n ≤ off ∨ off + 2 ≤ a)%nat →
  bytes_at (store16 m off v) a n = bytes_at m a n.
Proof.
  intros Hd. unfold bytes_at. apply map_ext_in. intros i Hi.
  apply in_seq in Hi. apply load8_store16_other. lia.
Qed.

(** A store to the port field leaves the family tag as it was. *)
Lemma sa_family_store_port sa v :
  sa_family (store16 sa sin_port_off v) = sa_family sa.
Proof.
  unfold sa_family, load16, sa_family_off, sin_port_off.
  rewrite !load8_store16_other by lia. done.
Qed.

(** The two families the code supports give different tags. *)
Lemma family_cases sa :
  (sa_family sa = AF_INET ∧ (sa_family sa =? AF_INET) = true)
  ∨ (sa_family sa = AF_INET6 ∧ (sa_family sa =? AF_INET) = false
     ∧ (sa_family sa =? AF_INET6) = true)
  ∨ (sa_family sa ≠ AF_INET ∧ sa_family sa ≠ AF_INET6
     ∧ (sa_family sa =? AF_INET) = false
     ∧ (sa_family sa =? AF_INET6) = false).
Proof.
  destruct (Z.eqb_spec (sa_family sa) AF_INET) as [E|E]; [by left|].
  destruct (Z.eqb_spec (sa_family sa) AF_INET6) as [E6|E6]; [|by right; right].
  right; left. done.
Qed.

(** Case analysis on the family tag of [sa], rewriting the tests of the
    [switch] on it. *)
Ltac family_switch sa :=
  let E := fresh "Efam" in
  let T := fresh "Tinet" in
  let T6 := fresh "Tinet6" in
  let N := fresh "Nfam" in
  let N6 := fresh "Nfam6" in
  destruct (family_cases sa) as [[E T]|[(E & T & T6)|(N & N6 & T & T6)]];
  rewrite ?T, ?T6 in *.

(** C7: for a record whose family is IPv4 or IPv6, [addr_get_len] is the
    size of the address structure of that family, [sizeof(struct
    sockaddr_in)] or [sizeof(struct sockaddr_in6)]; for a record of any
    other family it is 0. *)
Theorem addr_get_len_family sa :
  (sa_family sa = AF_INET → addr_get_len sa = Z.of_nat sizeof_sockaddr_in)
  ∧ (sa_family sa = AF_INET6 →
     addr_get_len sa = Z.of_nat sizeof_sockaddr_in6)
  ∧ (sa_family sa ≠ AF_INET → sa_family sa ≠ AF_INET6 → addr_get_len sa = 0).
Proof.
  unfold addr_get_len.
  family_switch sa; repeat split; intros; try done.
  all: unfold AF_INET, AF_INET6 in *; lia.
Qed.

Lemma addr_get_len_family_witness :
  addr_get_len (Samples.inet 192 0 2 7 3478) = 16
  ∧ addr_get_len (Samples.inet6 Samples.in6_global_temp 3478) = 28
  ∧ addr_get_len Samples.unspec = 0.
Proof.
  split; [|split].
  - by apply (proj1 (addr_get_len_family _)).
  - by apply (proj1 (proj2 (addr_get_len_family _))).
  - by apply (proj2 (proj2 (addr_get_len_family _))).
Defined.

(** C8, as the claim states it, fails for a record of an unsupported
    family: [addr_set_port] refuses such a record and [addr_get_port]
    answers 0 for it, so a port other than 0 does not come back. *)
Lemma addr_set_get_port_unspec :
  addr_set_port Samples.unspec 1 = (-1, Samples.unspec)
  ∧ addr_get_port (snd (addr_set_port Samples.unspec 1)) = 0
  ∧ addr_get_port (snd (addr_set_port Samples.unspec 1)) ≠ 1.
Proof. by vm_compute. Qed.

(** C8, amended: for a record whose family is IPv4 or IPv6 and every
    16-bit port, [addr_set_port] succeeds and [addr_get_port] on the
    record it wrote returns that port. *)
Theorem addr_set_port_get_port sa port :
  sa_family sa = AF_INET ∨ sa_family sa = AF_INET6 →
  (sin_port_off + 2 ≤ length sa)%nat →
  0 ≤ port < 65536 →
  fst (addr_set_port sa port) = 0
  ∧ addr_get_port (snd (addr_set_port sa port)) = port.
Proof.
  intros Hfam Hlen Hport. unfold addr_set_port, addr_get_port.
  unfold sin_port_off, sin6_port_off in *.
  family_switch sa; [| |by destruct Hfam]; simpl.
  all: pose proof (sa_family_store_port sa (htons port)) as Hf.
  all: unfold sin_port_off in Hf; rewrite Hf.
  all: rewrite ?Tinet, ?Tinet6.
  all: split; [done|].
  all: rewrite load16_store16 by (apply htons_range || lia).
  all: by apply ntohs_htons.
Qed.

Lemma addr_set_port_get_port_witness :
  addr_get_port (snd (addr_set_port (Samples.inet 192 0 2 7 3478) 0)) = 0
  ∧ addr_get_port
      (snd (addr_set_port (Samples.inet6 Samples.in6_global_temp 3478) 1))
    = 1
  ∧ addr_get_port (snd (addr_set_port (Samples.inet 192 0 2 7 3478) 65535))
    = 65535.
Proof.
  assert (sin_port_off + 2 ≤ sizeof_sockaddr_storage)%nat as Hlen
    by (unfold sin_port_off, sizeof_sockaddr_storage; lia).
  split; [|split].
  - exact (proj2 (addr_set_port_get_port (Samples.inet 192 0 2 7 3478) 0
                    (or_introl eq_refl) Hlen ltac:(lia))).
  - exact (proj2 (addr_set_port_get_port
                    (Samples.inet6 Samples.in6_global_temp 3478) 1
                    (or_intror eq_refl) Hlen ltac:(lia))).
  - exact (proj2 (addr_set_port_get_port (Samples.inet 192 0 2 7 3478) 65535
                    (or_introl eq_refl) Hlen ltac:(lia))).
Defined.

(** C10: on a record whose family is IPv4 or IPv6, [addr_set_port]
    succeeds and changes no byte outside of the port field: the size of
    the record, the family tag, the address bytes of either family and
    every other byte are as before.  On a record of any other family it
    fails and the record is as before. *)
Theorem addr_set_port_frame sa port :
  (sa_family sa = AF_INET ∨ sa_family sa = AF_INET6 →
   let sa' := snd (addr_set_port sa port) in
   fst (addr_set_port sa port) = 0
   ∧ length sa' = length sa
   ∧ sa_family sa' = sa_family sa
   ∧ bytes_at sa' sin_addr_off 4 = bytes_at sa sin_addr_off 4
   ∧ bytes_at sa' sin6_addr_off 16 = bytes_at sa sin6_addr_off 16
   ∧ ∀ i, ¬ (sin_port_off ≤ i < sin_port_off + 2)%nat → sa' !! i = sa !! i)
  ∧ (sa_family sa ≠ AF_INET → sa_family sa ≠ AF_INET6 →
     addr_set_port sa port = (-1, sa)).
Proof.
  unfold addr_set_port. split.
  - intros Hfam. family_switch sa; [| |by destruct Hfam]; simpl.
    all: unfold sin6_port_off.
    all: rewrite length_store16, sa_family_store_port.
    all: rewrite !bytes_at_store16_other
      by (unfold sin_port_off, sin_addr_off, sin6_addr_off; lia).
    all: repeat split; try done.
    all: intros i Hi; by apply lookup_store16_other.
  - intros N N6. family_switch sa; done.
Qed.

Lemma addr_set_port_frame_witness :
  (∀ i, ¬ (sin_port_off ≤ i < sin_port_off + 2)%nat →
        snd (addr_set_port (Samples.inet6 Samples.in6_global_temp 1) 443) !! i
        = Samples.inet6 Samples.in6_global_temp 1 !! i)
  ∧ addr_set_port Samples.unspec 443 = (-1, Samples.unspec).
Proof.
  split.
  - apply (proj1 (addr_set_port_frame _ 443)). by right.
  - by apply (proj2 (addr_set_port_frame _ 443)).
Defined.

(** ** Locality and temporariness: properties *)

(** The two mask tests of the code, read on the value of the byte. *)
Lemma land_192_128 b :
  (Z.land (u8 b) 192 =? 128) = (128 <=? u8 b) && (u8 b <? 192).
Proof. destruct b; reflexivity. Qed.

Lemma land_2_testbit b : (Z.land (u8 b) 2 =? 0) = negb (Z.testbit (u8 b) 1).
Proof. destruct b; reflexivity. Qed.

(** Offsets as the successors [seq] produces. *)
Ltac norm_offsets :=
  repeat rewrite Nat.add_succ_r; repeat rewrite Nat.add_0_r.

Lemma IN6_IS_ADDR_LOOPBACK_spec m a :
  IN6_IS_ADDR_LOOPBACK m a = true ↔ Spec.in6_loopback (bytes_at m a 16).
Proof.
  unfold IN6_IS_ADDR_LOOPBACK, Spec.in6_loopback, bytes_at.
  cbn [seq map forallb]. norm_offsets.
  rewrite !andb_true_iff, !Z.eqb_eq. split.
  - intros H. destruct_and!. by repeat f_equal.
  - intros [=]. by repeat split.
Qed.

Lemma IN6_IS_ADDR_V4MAPPED_spec m a :
  IN6_IS_ADDR_V4MAPPED m a = true ↔ Spec.in6_v4mapped (bytes_at m a 16).
Proof.
  unfold IN6_IS_ADDR_V4MAPPED, Spec.in6_v4mapped, bytes_at.
  cbn [seq map forallb take]. norm_offsets.
  rewrite !andb_true_iff, !Z.eqb_eq. split.
  - intros H. destruct_and!. by repeat f_equal.
  - intros [=]. by repeat split.
Qed.

Lemma IN6_IS_ADDR_LINKLOCAL_spec m a :
  IN6_IS_ADDR_LINKLOCAL m a = true ↔ Spec.in6_linklocal (bytes_at m a 16).
Proof.
  unfold IN6_IS_ADDR_LINKLOCAL, Spec.in6_linklocal, bytes_at.
  cbn [seq map]. norm_offsets.
  rewrite land_192_128, !andb_true_iff, Z.eqb_eq, Z.leb_le, Z.ltb_lt.
  pose proof (u8_range (load8 m a)). pose proof (u8_range (load8 m (S a))).
  change (65152 / 64) with 1018.
  split; intros Hl; Z.to_euclidean_division_equations; lia.
Qed.

(** The test on the four bytes of an IPv4 address that both branches of
    [addr_is_local] make. *)
Lemma ipv4_local_test m b :
  (if u8 (load8 m b) =? 127 then true
   else if (u8 (load8 m b) =? 169) && (u8 (load8 m (b + 1)) =? 254)
        then true else false) = true
  ↔ Spec.ipv4_local (bytes_at m b 4).
Proof.
  unfold Spec.ipv4_local, bytes_at. cbn [seq map take]. norm_offsets.
  destruct (Z.eqb_spec (u8 (load8 m b)) 127) as [E|E].
  - split; [|done]. left. by rewrite E.
  - destruct (Z.eqb_spec (u8 (load8 m b)) 169) as [E1|E1];
      destruct (Z.eqb_spec (u8 (load8 m (S b))) 254) as [E2|E2]; simpl.
    all: split; [try done|intros [[=]|[=]]; try done].
    intros _. right. by rewrite E1, E2.
Qed.

Lemma bytes_at_drop m a n k :
  (k ≤ n)%nat → drop k (bytes_at m a n) = bytes_at m (a + k) (n - k).
Proof.
  intros Hk. unfold bytes_at. rewrite skipn_map. f_equal.
  replace n with (k + (n - k))%nat at 1 by lia.
  rewrite seq_app, drop_app_length'; [done|]. by rewrite length_seq.
Qed.

(** C3: [addr_is_local] is true exactly when the family is IPv4 and the
    first octet of the address is 127 or its first two octets are 169.254,
    or the family is IPv6 and the address is the loopback address, a
    link-local address, or an IPv4-mapped address whose last four bytes
    pass the test of the IPv4 case; for any other family and any other
    address it is false. *)
Theorem addr_is_local_spec sa :
  addr_is_local sa = true
  ↔ (sa_family sa = AF_INET ∧ Spec.ipv4_local (bytes_at sa sin_addr_off 4))
    ∨ (sa_family sa = AF_INET6
       ∧ let a := bytes_at sa sin6_addr_off 16 in
         Spec.in6_loopback a ∨ Spec.in6_linklocal a
         ∨ (Spec.in6_v4mapped a ∧ Spec.ipv4_local (drop 12 a))).
Proof.
  cbv zeta. rewrite bytes_at_drop by lia. change (16 - 12)%nat with 4%nat.
  rewrite <- IN6_IS_ADDR_LOOPBACK_spec, <- IN6_IS_ADDR_LINKLOCAL_spec,
    <- IN6_IS_ADDR_V4MAPPED_spec, <- !ipv4_local_test.
  unfold addr_is_local. cbv zeta.
  assert (AF_INET ≠ AF_INET6) as Hne by done.
  family_switch sa.
  - split; [by left|]. intros [[_ H]|[H _]]; [done|congruence].
  - destruct (IN6_IS_ADDR_LOOPBACK sa sin6_addr_off);
      [split; [by right; split; [|left]|done]|].
    destruct (IN6_IS_ADDR_LINKLOCAL sa sin6_addr_off);
      [split; [by right; split; [|right; left]|done]|].
    destruct (IN6_IS_ADDR_V4MAPPED sa sin6_addr_off).
    + split; [by right; split; [|right; right]|].
      intros [[H _]|[_ [H|[H|[_ H]]]]]; try done. congruence.
    + split; [done|]. intros [[H _]|[_ [H|[H|[H _]]]]]; try done. congruence.
  - split; [done|]. by intros [[H _]|[H _]].
Qed.

(** Past the two guards of [addr_is_temp_inet6], bit [0x02] of the byte
    at offset 8 of the address decides. *)
Lemma addr_is_temp_inet6_nonlocal sa :
  sa_family sa = AF_INET6 → addr_is_local sa = false →
  addr_is_temp_inet6 sa
  = negb (Z.testbit (u8 (load8 (bytes_at sa sin6_addr_off 16) 8)) 1).
Proof.
  intros Hfam Hloc. unfold addr_is_temp_inet6.
  rewrite load8_bytes_at by lia.
  rewrite land_2_testbit, negb_involutive, Hfam, Hloc. simpl.
  by destruct (Z.testbit (u8 (load8 sa (sin6_addr_off + 8))) 1).
Qed.

(** C4: [addr_is_temp_inet6] is false when the family is not IPv6 and
    when [addr_is_local] holds of the record; otherwise it is true
    exactly when bit [0x02] of the byte at offset 8 of the sixteen
    address bytes is clear. *)
Theorem addr_is_temp_inet6_spec sa :
  (sa_family sa ≠ AF_INET6 → addr_is_temp_inet6 sa = false)
  ∧ (addr_is_local sa = true → addr_is_temp_inet6 sa = false)
  ∧ (sa_family sa = AF_INET6 → addr_is_local sa = false →
     (addr_is_temp_inet6 sa = true
      ↔ Z.testbit (u8 (load8 (bytes_at sa sin6_addr_off 16) 8)) 1 = false)).
Proof.
  split; [|split].
  - intros Hf. unfold addr_is_temp_inet6.
    by destruct (Z.eqb_spec (sa_family sa) AF_INET6).
  - intros Hloc. unfold addr_is_temp_inet6. rewrite Hloc.
    by destruct (sa_family sa =? AF_INET6).
  - intros Hfam Hloc. rewrite addr_is_temp_inet6_nonlocal by done.
    apply negb_true_iff.
Qed.

Lemma addr_is_temp_inet6_spec_witness :
  addr_is_temp_inet6 (Samples.inet 8 8 8 8 80) = false
  ∧ addr_is_temp_inet6 (Samples.inet6 Samples.in6_linklocal 80) = false
  ∧ addr_is_temp_inet6 (Samples.inet6 Samples.in6_global_temp 80) = true.
Proof.
  split; [|split].
  - by apply (proj1 (addr_is_temp_inet6_spec _)).
  - by apply (proj1 (proj2 (addr_is_temp_inet6_spec _))).
  - by apply (proj2 (proj2 (addr_is_temp_inet6_spec _))).
Defined.

(** C9: an IPv6 record that holds an IPv4-mapped address and is not
    local is a temporary address for [addr_is_temp_inet6]: the byte at
    offset 8 of a mapped address is zero, so its bit [0x02] is clear. *)
Theorem addr_is_temp_inet6_v4mapped sa :
  sa_family sa = AF_INET6 →
  Spec.in6_v4mapped (bytes_at sa sin6_addr_off 16) →
  addr_is_local sa = false →
  load8 (bytes_at sa sin6_addr_off 16) 8 = x00
  ∧ addr_is_temp_inet6 sa = true.
Proof.
  intros Hfam Hmap Hloc.
  assert (load8 (bytes_at sa sin6_addr_off 16) 8 = x00) as Hb8.
  { rewrite load8_bytes_at by lia. apply u8_inj.
    unfold Spec.in6_v4mapped, bytes_at in Hmap.
    cbn [seq map take] in Hmap. by injection Hmap. }
  split; [done|].
  rewrite addr_is_temp_inet6_nonlocal by done. by rewrite Hb8.
Qed.

Lemma addr_is_temp_inet6_v4mapped_witness :
  addr_is_temp_inet6 (Samples.inet6 (Samples.v4mapped 8 8 8 8) 80) = true.
Proof.
  by apply (proj2 (addr_is_temp_inet6_v4mapped
                     (Samples.inet6 (Samples.v4mapped 8 8 8 8) 80)
                     eq_refl eq_refl eq_refl)).
Defined.

(** ** IPv4-mapped IPv6 conversion: properties *)

Lemma to_u8_load16_lo m off : to_u8 (load16 m off) = load8 m off.
Proof.
  apply u8_inj. rewrite u8_to_u8, load16_eq.
  pose proof (u8_range (load8 m off)).
  Z.to_euclidean_division_equations. lia.
Qed.

Lemma to_u8_load16_hi m off :
  to_u8 (Z.shiftr (load16 m off) 8) = load8 m (S off).
Proof.
  apply u8_inj. rewrite u8_to_u8, load16_eq, Z.shiftr_div_pow2 by lia.
  change (2 ^ 8) with 256.
  pose proof (u8_range (load8 m off)). pose proof (u8_range (load8 m (S off))).
  Z.to_euclidean_division_equations. lia.
Qed.

(** Reading a byte back through the stores of the conversion
    functions. *)
Ltac unfold_layout :=
  unfold sa_family_off, sin_port_off, sin_addr_off, sin6_port_off,
    sin6_addr_off, sizeof_sockaddr_in, sizeof_sockaddr_in6 in *.

Ltac mem_simpl :=
  repeat first
    [ rewrite load8_memcpy | rewrite load8_store16 | rewrite load8_memset
    | rewrite length_memcpy | rewrite length_store16 | rewrite length_memset
    | rewrite to_u8_load16_lo | rewrite to_u8_load16_hi
    | rewrite load8_bytes_at by lia ];
  repeat case_decide; try lia; try done.

(** What [addr_map_inet6_v4mapped] writes over an IPv4 record. *)
Lemma addr_map_inet6_v4mapped_inet ss len :
  sa_family ss = AF_INET → (sizeof_sockaddr_in6 ≤ length ss)%nat →
  ∃ ss', addr_map_inet6_v4mapped ss len
         = (true, ss', Z.of_nat sizeof_sockaddr_in6)
    ∧ length ss' = length ss
    ∧ sa_family ss' = AF_INET6
    ∧ bytes_at ss' sin6_port_off 2 = bytes_at ss sin_port_off 2
    ∧ bytes_at ss' sin6_addr_off 16
      = replicate 10 x00 ++ [xff; xff] ++ bytes_at ss sin_addr_off 4.
Proof.
  intros Hfam Hlen. unfold addr_map_inet6_v4mapped. rewrite Hfam. simpl negb.
  cbv iota zeta. eexists. split; [reflexivity|].
  unfold_layout. split; [by mem_simpl|]. split; [|split].
  - unfold sa_family, load16, sa_family_off. by mem_simpl.
  - apply bytes_at_ext. intros i Hi. mem_simpl; destruct_and?; f_equal; lia.
  - etrans; [apply (bytes_at_app _ 8 10 6)|]. f_equal.
    2: etrans; [apply (bytes_at_app _ _ 2 4)|]; f_equal.
    + apply bytes_at_const. intros i Hi. by mem_simpl.
    + apply (bytes_at_const _ _ 2). intros i Hi. by mem_simpl.
    + apply bytes_at_ext. intros i Hi. mem_simpl; destruct_and?; f_equal; lia.
Qed.

(** What [addr_unmap_inet6_v4mapped] writes over an IPv4-mapped
    record. *)
Lemma addr_unmap_inet6_v4mapped_mapped sa len :
  sa_family sa = AF_INET6 →
  IN6_IS_ADDR_V4MAPPED sa sin6_addr_off = true →
  (sizeof_sockaddr_in ≤ length sa)%nat →
  ∃ sa', addr_unmap_inet6_v4mapped sa len
         = (true, sa', Z.of_nat sizeof_sockaddr_in)
    ∧ length sa' = length sa
    ∧ sa_family sa' = AF_INET
    ∧ bytes_at sa' sin_port_off 2 = bytes_at sa sin6_port_off 2
    ∧ bytes_at sa' sin_addr_off 4 = bytes_at sa (sin6_addr_off + 12) 4.
Proof.
  intros Hfam Hmap Hlen. unfold addr_unmap_inet6_v4mapped.
  rewrite Hfam, Hmap. simpl negb.
  cbv iota zeta. eexists. split; [reflexivity|].
  unfold_layout. split; [by mem_simpl|]. split; [|split].
  - unfold sa_family, load16, sa_family_off. by mem_simpl.
  - apply bytes_at_ext. intros i Hi. mem_simpl; destruct_and?; f_equal; lia.
  - apply bytes_at_ext. intros i Hi. mem_simpl; destruct_and?; f_equal; lia.
Qed.

Lemma bytes_at_2_load16 a aoff b boff :
  bytes_at a aoff 2 = bytes_at b boff 2 ↔ load16 a aoff = load16 b boff.
Proof.
  rewrite load16_inj. unfold bytes_at. cbn [seq map].
  split; [intros [=]; by split|]. intros [H0 H1]. by rewrite H0, H1.
Qed.

(** The port a record holds is read off its family and its port bytes. *)
Lemma addr_get_port_ext a b :
  sa_family a = sa_family b →
  bytes_at a sin_port_off 2 = bytes_at b sin_port_off 2 →
  addr_get_port a = addr_get_port b.
Proof.
  intros Hfam Hport. apply bytes_at_2_load16 in Hport.
  unfold addr_get_port, sin6_port_off, sin_port_off in *.
  by rewrite Hfam, Hport.
Qed.

(** The sixteen bytes of an IPv4-mapped address. *)
Lemma in6_v4mapped_bytes m a :
  Spec.in6_v4mapped (bytes_at m a 16) →
  bytes_at m a 16 = replicate 10 x00 ++ [xff; xff] ++ bytes_at m (a + 12) 4.
Proof.
  unfold Spec.in6_v4mapped, bytes_at. cbn [seq map take replicate app].
  norm_offsets. intros [=].
  repeat (f_equal; try (apply u8_inj; etrans; [eassumption|reflexivity])).
Qed.

(** C2: on an IPv4 record, [addr_map_inet6_v4mapped] and then
    [addr_unmap_inet6_v4mapped] both return true and give back an IPv4
    record with the address bytes and the port of the original, the
    length being the size of [struct sockaddr_in].  On an IPv6 record
    that holds an IPv4-mapped address, [addr_unmap_inet6_v4mapped] and
    then [addr_map_inet6_v4mapped] both return true and give back an
    IPv6 record with the sixteen address bytes and the port of the
    original. *)
Theorem v4mapped_roundtrip :
  (∀ ss len,
     sa_family ss = AF_INET → (sizeof_sockaddr_in6 ≤ length ss)%nat →
     let '(r1, ss1, len1) := addr_map_inet6_v4mapped ss len in
     let '(r2, ss2, len2) := addr_unmap_inet6_v4mapped ss1 len1 in
     r1 = true ∧ r2 = true
     ∧ sa_family ss2 = AF_INET
     ∧ bytes_at ss2 sin_addr_off 4 = bytes_at ss sin_addr_off 4
     ∧ bytes_at ss2 sin_port_off 2 = bytes_at ss sin_port_off 2
     ∧ addr_get_port ss2 = addr_get_port ss
     ∧ len2 = Z.of_nat sizeof_sockaddr_in)
  ∧ (∀ sa len,
       sa_family sa = AF_INET6 →
       Spec.in6_v4mapped (bytes_at sa sin6_addr_off 16) →
       (sizeof_sockaddr_in6 ≤ length sa)%nat →
       let '(r1, sa1, len1) := addr_unmap_inet6_v4mapped sa len in
       let '(r2, sa2, len2) := addr_map_inet6_v4mapped sa1 len1 in
       r1 = true ∧ r2 = true
       ∧ sa_family sa2 = AF_INET6
       ∧ bytes_at sa2 sin6_addr_off 16 = bytes_at sa sin6_addr_off 16
       ∧ bytes_at sa2 sin6_port_off 2 = bytes_at sa sin6_port_off 2
       ∧ addr_get_port sa2 = addr_get_port sa
       ∧ len2 = Z.of_nat sizeof_sockaddr_in6).
Proof.
  split.
  - intros ss len Hfam Hlen.
    destruct (addr_map_inet6_v4mapped_inet ss len Hfam Hlen)
      as (ss1 & -> & Hlen1 & Hfam1 & Hport1 & Haddr1).
    assert (IN6_IS_ADDR_V4MAPPED ss1 sin6_addr_off = true) as Hmap.
    { apply IN6_IS_ADDR_V4MAPPED_spec. unfold Spec.in6_v4mapped.
      by rewrite Haddr1. }
    destruct (addr_unmap_inet6_v4mapped_mapped ss1
                (Z.of_nat sizeof_sockaddr_in6) Hfam1 Hmap)
      as (ss2 & -> & Hlen2 & Hfam2 & Hport2 & Haddr2).
    { unfold_layout. lia. }
    assert (bytes_at ss2 sin_addr_off 4 = bytes_at ss sin_addr_off 4) as Ha.
    { rewrite Haddr2, <- (bytes_at_drop _ _ 16) by lia.
      by rewrite Haddr1. }
    assert (bytes_at ss2 sin_port_off 2 = bytes_at ss sin_port_off 2) as Hp.
    { by rewrite Hport2, Hport1. }
    repeat split; try done.
    apply addr_get_port_ext; [congruence|exact Hp].
  - intros sa len Hfam Hmapped Hlen.
    pose proof (proj2 (IN6_IS_ADDR_V4MAPPED_spec _ _) Hmapped) as Hmap.
    destruct (addr_unmap_inet6_v4mapped_mapped sa len Hfam Hmap)
      as (sa1 & -> & Hlen1 & Hfam1 & Hport1 & Haddr1).
    { unfold_layout. lia. }
    destruct (addr_map_inet6_v4mapped_inet sa1
                (Z.of_nat sizeof_sockaddr_in) Hfam1)
      as (sa2 & -> & Hlen2 & Hfam2 & Hport2 & Haddr2); [lia|].
    assert (bytes_at sa2 sin6_addr_off 16 = bytes_at sa sin6_addr_off 16)
      as Ha.
    { by rewrite Haddr2, Haddr1, (in6_v4mapped_bytes sa). }
    assert (bytes_at sa2 sin6_port_off 2 = bytes_at sa sin6_port_off 2)
      as Hp.
    { by rewrite Hport2, Hport1. }
    repeat split; try done.
    apply addr_get_port_ext; [congruence|exact Hp].
Qed.

Lemma v4mapped_roundtrip_witness :
  (let '(_, ss1, len1) :=
     addr_map_inet6_v4mapped (Samples.inet 192 0 2 7 3478) 16 in
   let '(_, ss2, _) := addr_unmap_inet6_v4mapped ss1 len1 in
   bytes_at ss2 sin_addr_off 4)
  = map to_u8 [192; 0; 2; 7]
  ∧ (let '(_, sa1, len1) :=
       addr_unmap_inet6_v4mapped
         (Samples.inet6 (Samples.v4mapped 192 0 2 7) 3478) 28 in
     let '(_, sa2, _) := addr_map_inet6_v4mapped sa1 len1 in
     addr_get_port sa2)
    = 3478.
Proof.
  assert (sizeof_sockaddr_in6 ≤ sizeof_sockaddr_storage)%nat as Hlen
    by (unfold sizeof_sockaddr_in6, sizeof_sockaddr_storage; lia).
  split.
  - pose proof (proj1 v4mapped_roundtrip
                  (Samples.inet 192 0 2 7 3478) 16 eq_refl Hlen) as H.
    vm_compute in H. destruct H as (_ & _ & _ & Haddr & _). exact Haddr.
  - pose proof (proj2 v4mapped_roundtrip
                  (Samples.inet6 (Samples.v4mapped 192 0 2 7) 3478) 28
                  eq_refl eq_refl Hlen) as H.
    vm_compute in H. destruct H as (_ & _ & _ & _ & _ & Hport & _).
    exact Hport.
Defined.

(** ** Equality: properties *)

(** The outcome of one [case] of [addr_is_equal]: the address bytes are
    compared with [memcmp], the port fields as [uint16_t] values and only
    on request. *)
Lemma addr_is_equal_case a b (compare_ports : bool) addr_off n port_off :
  (if negb (memcmp a addr_off b addr_off n =? 0) then false
   else if compare_ports
           && negb (load16 a port_off =? load16 b port_off)
        then false else true) = true
  ↔ bytes_at a addr_off n = bytes_at b addr_off n
    ∧ (compare_ports = true →
       bytes_at a port_off 2 = bytes_at b port_off 2).
Proof.
  rewrite bytes_at_2_load16, <- memcmp_0.
  destruct (Z.eqb_spec (memcmp a addr_off b addr_off n) 0) as [E|E]; simpl.
  - destruct compare_ports; simpl; [|by split].
    destruct (Z.eqb_spec (load16 a port_off) (load16 b port_off)) as [P|P].
    + by split.
    + split; [done|]. intros [_ H]. by specialize (H eq_refl).
  - split; [done|]. by intros [H _].
Qed.

(** C5: [addr_is_equal] is false when the families differ.  When they are
    the same and IPv4 or IPv6, it is true exactly when the address bytes
    (4 for IPv4, 16 for IPv6) are the same and, if [compare_ports] is
    set, the bytes of the port fields are the same too.  Two records of
    one family that is neither IPv4 nor IPv6 are not equal. *)
Theorem addr_is_equal_spec a b (compare_ports : bool) :
  (sa_family a ≠ sa_family b → addr_is_equal a b compare_ports = false)
  ∧ (sa_family a = sa_family b → sa_family a = AF_INET →
     (addr_is_equal a b compare_ports = true
      ↔ bytes_at a sin_addr_off 4 = bytes_at b sin_addr_off 4
        ∧ (compare_ports = true →
           bytes_at a sin_port_off 2 = bytes_at b sin_port_off 2)))
  ∧ (sa_family a = sa_family b → sa_family a = AF_INET6 →
     (addr_is_equal a b compare_ports = true
      ↔ bytes_at a sin6_addr_off 16 = bytes_at b sin6_addr_off 16
        ∧ (compare_ports = true →
           bytes_at a sin6_port_off 2 = bytes_at b sin6_port_off 2)))
  ∧ (sa_family a = sa_family b →
     sa_family a ≠ AF_INET → sa_family a ≠ AF_INET6 →
     addr_is_equal a b compare_ports = false).
Proof.
  unfold addr_is_equal. split; [|split; [|split]].
  - intros Hne. by destruct (Z.eqb_spec (sa_family a) (sa_family b)).
  - intros Hsame Hfam. rewrite <- Hsame, Z.eqb_refl, Hfam.
    change (AF_INET =? AF_INET) with true. cbn [negb].
    apply addr_is_equal_case.
  - intros Hsame Hfam. rewrite <- Hsame, Z.eqb_refl, Hfam.
    change (AF_INET6 =? AF_INET) with false.
    change (AF_INET6 =? AF_INET6) with true. cbn [negb].
    apply addr_is_equal_case.
  - intros Hsame N N6. rewrite <- Hsame, Z.eqb_refl. cbn [negb].
    by family_switch a.
Qed.

Lemma addr_is_equal_spec_witness :
  addr_is_equal (Samples.inet 127 0 0 1 80)
    (Samples.inet6 (Samples.v4mapped 127 0 0 1) 80) false = false
  ∧ addr_is_equal (Samples.inet 8 8 8 8 1) (Samples.inet 8 8 8 8 2) false
    = true
  ∧ addr_is_equal (Samples.inet6 Samples.in6_loopback 7)
      (Samples.inet6 Samples.in6_loopback 7) true = true
  ∧ addr_is_equal Samples.unspec Samples.unspec false = false.
Proof.
  split; [|split; [|split]].
  - by apply (proj1 (addr_is_equal_spec _ _ _)).
  - by apply (proj1 (proj2 (addr_is_equal_spec _ _ _))).
  - by apply (proj1 (proj2 (proj2 (addr_is_equal_spec _ _ _)))).
  - by apply (proj2 (proj2 (proj2 (addr_is_equal_spec _ _ _)))).
Defined.

(** ** Resolution: properties *)

Lemma int_incr_small r : - 2 ^ 31 ≤ r < INT_MAX → int_incr r = r + 1.
Proof.
  unfold int_incr, INT_MAX. intros Hr.
  rewrite Z.mod_small by lia. lia.
Qed.

(** The loop, with the array of the caller cut at the two pointers:
    [filled] lies before [records], [room] between [records] and [end],
    [rest] from [end] on.  The loop counts every candidate, fills [room]
    from its start with the candidates in their order, and touches neither
    [filled] nor [rest]. *)
Lemma resolve_loop_spec ai ret (filled room rest : list addr_record_t) :
  let found := List.filter Spec.candidate ai in
  let n := (length found `min` length room)%nat in
  0 ≤ ret → ret + Z.of_nat (length found) ≤ INT_MAX →
  resolve_loop ai ret (length filled) (length filled + length room)
    (filled ++ room ++ rest)
  = (ret + Z.of_nat (length found),
     filled ++ (zip_with write_record (take n found) (take n room)
              ++ drop n room) ++ rest).
Proof.
  cbv zeta. revert ret filled room.
  induction ai as [|a ai IH]; intros ret filled room Hret Hmax.
  - simpl. by rewrite Z.add_0_r, drop_0.
  - cbn [resolve_loop List.filter] in *.
    change ((ai_family a =? AF_INET) || (ai_family a =? AF_INET6))
      with (Spec.candidate a).
    destruct (Spec.candidate a) eqn:Hcand; cbv iota; [|by apply IH].
    cbn [length] in *. rewrite int_incr_small by (unfold INT_MAX in *; lia).
    destruct room as [|r room].
    + rewrite Nat.add_0_r, Nat.eqb_refl. cbn [negb].
      specialize (IH (ret + 1) filled [] ltac:(lia) ltac:(lia)).
      rewrite Nat.add_0_r in IH. rewrite IH.
      cbn [length]. rewrite !Nat.min_0_r. f_equal. lia.
    + replace (length filled =? length filled + length (r :: room))%nat
        with false by (symmetry; apply Nat.eqb_neq; cbn [length]; lia).
      cbn [negb].
      replace (alter (write_record a) (length filled)
                 (filled ++ (r :: room) ++ rest))
        with ((filled ++ [write_record a r]) ++ room ++ rest).
      2:{ rewrite alter_app_r_alt, Nat.sub_diag by lia.
          by rewrite <- app_assoc. }
      specialize (IH (ret + 1) (filled ++ [write_record a r]) room
                    ltac:(lia) ltac:(lia)).
      rewrite length_app in IH. cbn [length] in *.
      replace (S (length filled)) with (length filled + 1)%nat by lia.
      replace (length filled + S (length room))%nat
        with (length filled + 1 + length room)%nat by lia.
      rewrite IH. rewrite <- Nat.succ_min_distr. cbn [take zip_with drop].
      rewrite <- !app_assoc. f_equal. lia.
Qed.

(** A record the loop has filled holds the length and the address bytes
    of its candidate. *)
Lemma write_record_holds ai r :
  (Z.to_nat (ai_addrlen ai) ≤ length (addr r))%nat →
  len (write_record ai r) = ai_addrlen ai
  ∧ length (addr (write_record ai r)) = length (addr r)
  ∧ bytes_at (addr (write_record ai r)) 0 (Z.to_nat (ai_addrlen ai))
    = bytes_at (ai_addr ai) 0 (Z.to_nat (ai_addrlen ai)).
Proof.
  intros Hlen. unfold write_record. cbn [addr len].
  split; [done|]. split; [apply length_memcpy|].
  apply bytes_at_ext. intros i Hi. rewrite load8_memcpy.
  case_decide; [f_equal|]; lia.
Qed.

(** C1: when the platform resolver succeeds, [addr_resolve] returns the
    number of candidates whose family is IPv4 or IPv6, whatever the
    capacity [count]; the first [min] (that number, [count]) records of
    the array are written, the [i]-th from the [i]-th such candidate, each
    with the length and the address bytes of its candidate; every other
    record, and so every record from index [count] on, is as before. *)
Theorem addr_resolve_success `{Resolver} hostname service
    (records : list addr_record_t) (count : nat) ai_list :
  getaddrinfo hostname service addr_resolve_hints = (0, ai_list) →
  (count ≤ length records)%nat →
  Forall (λ r, length (addr r) = sizeof_sockaddr_storage) records →
  let found := List.filter Spec.candidate ai_list in
  let n := (length found `min` count)%nat in
  Z.of_nat (length found) ≤ INT_MAX →
  let ret := fst (addr_resolve hostname service records count) in
  let records' := snd (addr_resolve hostname service records count) in
  ret = Z.of_nat (length found)
  ∧ records'
    = zip_with write_record (take n found) (take n records) ++ drop n records
  ∧ length records' = length records
  ∧ drop count records' = drop count records
  ∧ (∀ i ai,
       (i < count)%nat → found !! i = Some ai →
       ∃ r', records' !! i = Some r'
         ∧ len r' = ai_addrlen ai
         ∧ take (Z.to_nat (ai_addrlen ai)) (addr r') = ai_addr ai
         ∧ length (addr r') = sizeof_sockaddr_storage).
Proof.
  intros Hres Hcount Hstorage found n Hmax. cbv zeta.
  pose proof (getaddrinfo_nodes _ _ _ _ _ Hres) as Hnodes.
  unfold addr_resolve. rewrite Hres. cbn [Z.eqb negb].
  pose proof (resolve_loop_spec ai_list 0 [] (take count records)
                (drop count records) ltac:(lia) ltac:(by fold found)) as Hloop.
  cbv zeta in Hloop. cbn [length app] in Hloop.
  rewrite take_drop, length_take_le in Hloop by done.
  rewrite Hloop. cbn [fst snd]. fold found. fold n.
  assert (n ≤ count)%nat as Hn by lia.
  assert (drop n (take count records) ++ drop count records = drop n records)
    as Htail.
  { rewrite <- (take_drop count records) at 3.
    rewrite drop_app_le; [done|]. rewrite length_take. lia. }
  rewrite take_take, <- app_assoc, Htail.
  replace (n `min` count)%nat with n by lia.
  set (written := zip_with write_record (take n found) (take n records)).
  assert (length written = n) as Hwritten.
  { unfold written. rewrite length_zip_with, !length_take. lia. }
  split; [lia|]. split; [done|]. split; [|split].
  - rewrite length_app, Hwritten, length_drop. lia.
  - rewrite drop_app_ge, Hwritten, drop_drop by lia. f_equal. lia.
  - intros i ai Hi Hai.
    assert (i < n)%nat as Hin.
    { apply lookup_lt_Some in Hai. lia. }
    destruct (lookup_lt_is_Some_2 records i ltac:(lia)) as [r Hr].
    assert (length (addr r) = sizeof_sockaddr_storage) as Hr128.
    { by apply (Forall_lookup_1 _ _ _ _ Hstorage Hr). }
    assert (addrinfo_ok ai) as [Hlen Hfit].
    { apply (Forall_lookup_1 _ found i); [|done].
      unfold found. apply Forall_forall. intros x Hx.
      apply list_elem_of_In, filter_In in Hx as [Hx _].
      apply list_elem_of_In in Hx. by eapply Forall_forall in Hnodes. }
    exists (write_record ai r).
    destruct (write_record_holds ai r ltac:(lia)) as (Hl & Hsize & Hbytes).
    split; [|split; [done|split; [|congruence]]].
    + rewrite lookup_app_l by lia. unfold written.
      rewrite lookup_zip_with, !lookup_take_lt, Hai, Hr by done. done.
    + rewrite <- (bytes_at_take (addr (write_record ai r))) by lia.
      rewrite Hbytes, bytes_at_take by lia. by rewrite take_ge by lia.
Qed.

Lemma addr_resolve_success_witness :
  fst (@addr_resolve Samples.resolver "localhost" "80"
         (Samples.blank_records 2) 1) = 2
  ∧ drop 1 (snd (@addr_resolve Samples.resolver "localhost" "80"
                   (Samples.blank_records 2) 1))
    = Samples.blank_records 1.
Proof.
  assert (1 ≤ length (Samples.blank_records 2))%nat as Hcount
    by (simpl; lia).
  assert (Forall (λ r, length (addr r) = sizeof_sockaddr_storage)
            (Samples.blank_records 2)) as Hstorage
    by (repeat constructor).
  assert (Z.of_nat (length (List.filter Spec.candidate Samples.localhost_nodes))
          ≤ INT_MAX) as Hmax by (vm_compute; discriminate).
  destruct (@addr_resolve_success Samples.resolver "localhost" "80"
              (Samples.blank_records 2) 1 Samples.localhost_nodes
              eq_refl Hcount Hstorage Hmax) as (Hret & _ & _ & Hrest & _).
  split; [exact Hret|exact Hrest].
Defined.

(** C6: when the platform resolver fails, [addr_resolve] returns -1, a
    negative value, and the array of the caller is as before. *)
Theorem addr_resolve_failure `{Resolver} hostname service
    (records : list addr_record_t) (count : nat) rc ai_list :
  getaddrinfo hostname service addr_resolve_hints = (rc, ai_list) →
  rc ≠ 0 →
  addr_resolve hostname service records count = (-1, records)
  ∧ fst (addr_resolve hostname service records count) < 0.
Proof.
  intros Hres Hrc. unfold addr_resolve. rewrite Hres.
  destruct (Z.eqb_spec rc 0) as [E|E]; [done|]. cbn [negb fst]. split; [done|lia].
Qed.

Lemma addr_resolve_failure_witness :
  @addr_resolve Samples.resolver "nowhere.invalid" "80"
    (Samples.blank_records 2) 2
  = (-1, Samples.blank_records 2).
Proof.
  apply (@addr_resolve_failure Samples.resolver "nowhere.invalid" "80"
           (Samples.blank_records 2) 2 (-2) [] eq_refl).
  discriminate.
Defined.

(** ** Equality as a relation *)

(** When [addr_is_equal] answers true, for either value of
    [compare_ports]. *)
Lemma addr_is_equal_true a b (compare_ports : bool) :
  addr_is_equal a b compare_ports = true
  ↔ sa_family a = sa_family b
    ∧ ((sa_family a = AF_INET
        ∧ bytes_at a sin_addr_off 4 = bytes_at b sin_addr_off 4)
       ∨ (sa_family a = AF_INET6
          ∧ bytes_at a sin6_addr_off 16 = bytes_at b sin6_addr_off 16))
    ∧ (compare_ports = true →
       bytes_at a sin_port_off 2 = bytes_at b sin_port_off 2).
Proof.
  assert (AF_INET ≠ AF_INET6) as Hne by done.
  unfold addr_is_equal.
  destruct (Z.eqb_spec (sa_family a) (sa_family b)) as [Hsame|Hdiff];
    cbn [negb]; [|by split; [|intros [? _]]].
  family_switch a.
  - rewrite addr_is_equal_case. split.
    + intros [Ha Hp]. split; [done|]. split; [by left|done].
    + intros (_ & [[_ Ha]|[Hf _]] & Hp); [done|congruence].
  - rewrite addr_is_equal_case. unfold sin6_port_off. split.
    + intros [Ha Hp]. split; [done|]. split; [by right|done].
    + intros (_ & [[Hf _]|[_ Ha]] & Hp); [congruence|done].
  - split; [done|]. intros (_ & [[Hf _]|[Hf _]] & _); congruence.
Qed.

(** X1: [addr_is_equal] does not depend on the order of its two
    records, and a record is equal to itself exactly when its family is
    IPv4 or IPv6. *)
Theorem addr_is_equal_sym_refl a b (compare_ports : bool) :
  addr_is_equal a b compare_ports = addr_is_equal b a compare_ports
  ∧ (addr_is_equal a a compare_ports = true
     ↔ sa_family a = AF_INET ∨ sa_family a = AF_INET6).
Proof.
  split.
  - apply eq_true_iff_eq. rewrite !addr_is_equal_true. split.
    + intros (Hf & Ha & Hp). rewrite <- Hf. split; [done|].
      split; [|by intros ?; symmetry; apply Hp].
      destruct Ha as [[? ?]|[? ?]]; [left|right]; by split.
    + intros (Hf & Ha & Hp). rewrite <- Hf. split; [done|].
      split; [|by intros ?; symmetry; apply Hp].
      destruct Ha as [[? ?]|[? ?]]; [left|right]; split; congruence.
  - rewrite addr_is_equal_true. split.
    + intros (_ & [[? _]|[? _]] & _); [by left|by right].
    + intros [?|?]; (split; [done|]); (split; [|done]); [by left|by right].
Qed.

(** X2: [addr_is_equal] is transitive, for either value of
    [compare_ports]. *)
Theorem addr_is_equal_trans a b c (compare_ports : bool) :
  addr_is_equal a b compare_ports = true →
  addr_is_equal b c compare_ports = true →
  addr_is_equal a c compare_ports = true.
Proof.
  rewrite !addr_is_equal_true.
  intros (Hf1 & Ha1 & Hp1) (Hf2 & Ha2 & Hp2).
  split; [congruence|]. split.
  - destruct Ha1 as [[F1 A1]|[F1 A1]], Ha2 as [[F2 A2]|[F2 A2]].
    + left. split; congruence.
    + rewrite <- Hf1, F1 in F2. discriminate.
    + rewrite <- Hf1, F1 in F2. discriminate.
    + right. split; congruence.
  - intros Hcp. rewrite Hp1, Hp2; done.
Qed.

Lemma addr_is_equal_trans_witness :
  addr_is_equal (Samples.inet 8 8 8 8 1) (Samples.inet 8 8 8 8 3) false
  = true.
Proof.
  by apply (addr_is_equal_trans _ (Samples.inet 8 8 8 8 2)).
Defined.

Lemma ntohs_inj x y :
  0 ≤ x < 65536 → 0 ≤ y < 65536 → ntohs x = ntohs y → x = y.
Proof.
  intros Hx Hy H. apply (f_equal htons) in H. unfold ntohs in H.
  pose proof (ntohs_htons x Hx) as Ex. pose proof (ntohs_htons y Hy) as Ey.
  unfold ntohs in Ex, Ey. congruence.
Qed.

(** On two records of one supported family, the ports [addr_get_port]
    reads are the same exactly when the bytes of the port fields are. *)
Lemma addr_get_port_eq_bytes a b :
  sa_family a = sa_family b →
  sa_family a = AF_INET ∨ sa_family a = AF_INET6 →
  addr_get_port a = addr_get_port b
  ↔ bytes_at a sin_port_off 2 = bytes_at b sin_port_off 2.
Proof.
  intros Hsame Hfam. split; [|by apply addr_get_port_ext].
  rewrite bytes_at_2_load16. unfold addr_get_port, sin6_port_off.
  rewrite <- Hsame.
  family_switch a; [| |by destruct Hfam]; apply ntohs_inj; apply load16_range.
Qed.

(** X3: comparing with the ports is comparing without them and then
    comparing what [addr_get_port] reads: the port fields are compared as
    stored, and the byte order of the host makes no difference. *)
Theorem addr_is_equal_with_ports a b :
  addr_is_equal a b true = true
  ↔ addr_is_equal a b false = true ∧ addr_get_port a = addr_get_port b.
Proof.
  rewrite !addr_is_equal_true. split.
  - intros (Hf & Ha & Hp). specialize (Hp eq_refl).
    split; [by split; [|split]|]. by apply addr_get_port_ext.
  - intros [(Hf & Ha & _) Hport]. split; [done|]. split; [done|].
    intros _. apply addr_get_port_eq_bytes; [done| |done].
    destruct Ha as [[? _]|[? _]]; [by left|by right].
Qed.

Lemma bytes_at_load8 a aoff b boff n i :
  bytes_at a aoff n = bytes_at b boff n → (i < n)%nat →
  load8 a (aoff + i) = load8 b (boff + i).
Proof.
  intros H Hi. rewrite <- !(load8_bytes_at _ _ n) by done. by rewrite H.
Qed.

(** [addr_is_local] looks at the family and at the address bytes of that
    family, and at nothing else. *)
Lemma addr_is_local_ext a b :
  sa_family a = sa_family b →
  (sa_family a = AF_INET →
   bytes_at a sin_addr_off 4 = bytes_at b sin_addr_off 4) →
  (sa_family a = AF_INET6 →
   bytes_at a sin6_addr_off 16 = bytes_at b sin6_addr_off 16) →
  addr_is_local a = addr_is_local b.
Proof.
  intros Hsame H4 H6. unfold addr_is_local. cbv zeta. rewrite <- Hsame.
  family_switch a; [| |done].
  - apply eq_true_iff_eq. rewrite !ipv4_local_test. by rewrite H4.
  - specialize (H6 Efam).
    assert (IN6_IS_ADDR_LOOPBACK a sin6_addr_off
            = IN6_IS_ADDR_LOOPBACK b sin6_addr_off) as ->.
    { apply eq_true_iff_eq. rewrite !IN6_IS_ADDR_LOOPBACK_spec.
      by rewrite H6. }
    assert (IN6_IS_ADDR_LINKLOCAL a sin6_addr_off
            = IN6_IS_ADDR_LINKLOCAL b sin6_addr_off) as ->.
    { apply eq_true_iff_eq. rewrite !IN6_IS_ADDR_LINKLOCAL_spec.
      by rewrite H6. }
    assert (IN6_IS_ADDR_V4MAPPED a sin6_addr_off
            = IN6_IS_ADDR_V4MAPPED b sin6_addr_off) as ->.
    { apply eq_true_iff_eq. rewrite !IN6_IS_ADDR_V4MAPPED_spec.
      by rewrite H6. }
    destruct (IN6_IS_ADDR_LOOPBACK b sin6_addr_off); [done|].
    destruct (IN6_IS_ADDR_LINKLOCAL b sin6_addr_off); [done|].
    destruct (IN6_IS_ADDR_V4MAPPED b sin6_addr_off); [|done].
    apply eq_true_iff_eq. rewrite !ipv4_local_test.
    rewrite <- !(bytes_at_drop _ _ 16 12) by lia. by rewrite H6.
Qed.

(** [addr_is_temp_inet6] likewise. *)
Lemma addr_is_temp_inet6_ext a b :
  sa_family a = sa_family b →
  (sa_family a = AF_INET6 →
   bytes_at a sin6_addr_off 16 = bytes_at b sin6_addr_off 16) →
  addr_is_temp_inet6 a = addr_is_temp_inet6 b.
Proof.
  intros Hsame H6. unfold addr_is_temp_inet6. rewrite <- Hsame.
  destruct (Z.eqb_spec (sa_family a) AF_INET6) as [E|E]; [|done].
  cbn [negb]. specialize (H6 E).
  rewrite (addr_is_local_ext a b Hsame) by (done || (rewrite E; done)).
  by rewrite (bytes_at_load8 a sin6_addr_off b sin6_addr_off 16 8 H6) by lia.
Qed.

(** X4: two records that [addr_is_equal] finds equal, the ports left
    aside, have the same length for [addr_get_len] and the same class for
    [addr_is_local] and [addr_is_temp_inet6]. *)
Theorem addr_is_equal_same_class a b (compare_ports : bool) :
  addr_is_equal a b compare_ports = true →
  addr_get_len a = addr_get_len b
  ∧ addr_is_local a = addr_is_local b
  ∧ addr_is_temp_inet6 a = addr_is_temp_inet6 b.
Proof.
  assert (AF_INET ≠ AF_INET6) as Hne by done.
  rewrite addr_is_equal_true. intros (Hf & Ha & _).
  split; [by unfold addr_get_len; rewrite Hf|].
  destruct Ha as [[F A]|[F A]].
  - split; [apply addr_is_local_ext|apply addr_is_temp_inet6_ext];
      try done; intros F6; congruence.
  - split; [apply addr_is_local_ext|apply addr_is_temp_inet6_ext];
      try done; intros F4; congruence.
Qed.

Lemma addr_is_equal_same_class_witness :
  addr_is_local (Samples.inet 169 254 1 1 80)
  = addr_is_local (Samples.inet 169 254 1 1 3478).
Proof.
  by apply (addr_is_equal_same_class _ _ false).
Defined.

(** ** The port and the rest of a record *)

Lemma store16_store16 m off v w :
  store16 (store16 m off v) off w = store16 m off w.
Proof.
  unfold store16, store8.
  rewrite (list_insert_insert_ne _ off (S off)) by lia.
  by rewrite list_insert_insert_eq, list_insert_insert_eq.
Qed.

(** The record [addr_set_port] leaves behind: the original one, with
    two bytes stored in the port field when the family is supported. *)
Lemma addr_set_port_snd sa port :
  snd (addr_set_port sa port)
  = if (sa_family sa =? AF_INET) || (sa_family sa =? AF_INET6)
    then store16 sa sin_port_off (htons port) else sa.
Proof. unfold addr_set_port, sin6_port_off. by family_switch sa. Qed.

Lemma addr_set_port_family sa port :
  sa_family (snd (addr_set_port sa port)) = sa_family sa.
Proof.
  rewrite addr_set_port_snd.
  destruct ((sa_family sa =? AF_INET) || (sa_family sa =? AF_INET6));
    [apply sa_family_store_port|done].
Qed.

Lemma addr_set_port_bytes sa port a n :
  (a + n ≤ sin_port_off ∨ sin_port_off + 2 ≤ a)%nat →
  bytes_at (snd (addr_set_port sa port)) a n = bytes_at sa a n.
Proof.
  intros Ha. rewrite addr_set_port_snd.
  destruct ((sa_family sa =? AF_INET) || (sa_family sa =? AF_INET6));
    [by apply bytes_at_store16_other|done].
Qed.

(** X5: [addr_set_port] changes neither the length [addr_get_len] gives
    for the record nor its class for [addr_is_local] and
    [addr_is_temp_inet6], and the record it leaves compares with the
    original, the ports left aside, as the original does with itself. *)
Theorem addr_set_port_same_class sa port :
  let sa' := snd (addr_set_port sa port) in
  addr_get_len sa' = addr_get_len sa
  ∧ addr_is_local sa' = addr_is_local sa
  ∧ addr_is_temp_inet6 sa' = addr_is_temp_inet6 sa
  ∧ addr_is_equal sa sa' false = addr_is_equal sa sa false.
Proof.
  cbv zeta.
  pose proof (addr_set_port_family sa port) as Hfam.
  assert (bytes_at (snd (addr_set_port sa port)) sin_addr_off 4
          = bytes_at sa sin_addr_off 4) as H4
    by (apply addr_set_port_bytes; unfold_layout; lia).
  assert (bytes_at (snd (addr_set_port sa port)) sin6_addr_off 16
          = bytes_at sa sin6_addr_off 16) as H6
    by (apply addr_set_port_bytes; unfold_layout; lia).
  split; [by unfold addr_get_len; rewrite Hfam|].
  split; [by apply addr_is_local_ext|].
  split; [by apply addr_is_temp_inet6_ext|].
  apply eq_true_iff_eq. rewrite !addr_is_equal_true, Hfam, H4, H6.
  split; intros (Hf & Ha & _); (split; [done|]); by split.
Qed.

(** X6: of two calls of [addr_set_port] on a record the second decides:
    the record and the result are those of the second call alone. *)
Theorem addr_set_port_twice sa port1 port2 :
  addr_set_port (snd (addr_set_port sa port1)) port2 = addr_set_port sa port2.
Proof.
  pose proof (addr_set_port_family sa port1) as Hfam.
  pose proof (addr_set_port_snd sa port1) as Hsnd.
  unfold addr_set_port at 1 3. rewrite Hfam. unfold sin6_port_off in *.
  family_switch sa; cbn [orb] in Hsnd; rewrite Hsnd; try done.
  all: by rewrite store16_store16.
Qed.

(** X7: two records that are equal with the ports left aside become equal
    with the ports compared once [addr_set_port] has stored one port in
    both. *)
Theorem addr_set_port_makes_equal a b port :
  addr_is_equal a b false = true →
  (sin_port_off + 2 ≤ length a)%nat → (sin_port_off + 2 ≤ length b)%nat →
  addr_is_equal (snd (addr_set_port a port)) (snd (addr_set_port b port)) true
  = true.
Proof.
  rewrite !addr_is_equal_true. intros (Hf & Ha & _) Hla Hlb.
  rewrite !addr_set_port_family.
  rewrite !(addr_set_port_bytes _ _ sin_addr_off 4) by (unfold_layout; lia).
  rewrite !(addr_set_port_bytes _ _ sin6_addr_off 16)
    by (unfold_layout; lia).
  split; [done|]. split; [done|]. intros _.
  rewrite !addr_set_port_snd, <- Hf.
  assert ((sa_family a =? AF_INET) || (sa_family a =? AF_INET6) = true)
    as ->.
  { destruct Ha as [[-> _]|[-> _]]; done. }
  unfold_layout. apply bytes_at_ext. intros i Hi.
  rewrite !load8_store16. repeat case_decide; try done; lia.
Qed.

Lemma addr_set_port_makes_equal_witness :
  addr_is_equal (snd (addr_set_port (Samples.inet 8 8 8 8 1) 3478))
    (snd (addr_set_port (Samples.inet 8 8 8 8 2) 3478)) true
  = true.
Proof.
  apply addr_set_port_makes_equal; [done|simpl; lia..].
Defined.

(** ** Conversion and the other operations *)

(** An IPv4-mapped address is neither the loopback address nor a
    link-local one. *)
Lemma v4mapped_excludes m a :
  IN6_IS_ADDR_V4MAPPED m a = true →
  IN6_IS_ADDR_LOOPBACK m a = false ∧ IN6_IS_ADDR_LINKLOCAL m a = false.
Proof.
  intros H. apply IN6_IS_ADDR_V4MAPPED_spec in H.
  split; apply not_true_is_false.
  - rewrite IN6_IS_ADDR_LOOPBACK_spec.
    unfold Spec.in6_v4mapped, Spec.in6_loopback, bytes_at in *.
    cbn [seq map take] in *. intros [=]. injection H. intros. lia.
  - rewrite IN6_IS_ADDR_LINKLOCAL_spec.
    unfold Spec.in6_v4mapped, Spec.in6_linklocal, bytes_at in *.
    cbn [seq map take] in *. injection H. intros.
    pose proof (u8_range (load8 m (S a))).
    change (65152 / 64) with 1018. intros Hl.
    Z.to_euclidean_division_equations. lia.
Qed.

(** [addr_is_local] on an IPv6 record that holds an IPv4-mapped address
    is the test of the IPv4 case on its last four bytes. *)
Lemma addr_is_local_mapped sa :
  sa_family sa = AF_INET6 → IN6_IS_ADDR_V4MAPPED sa sin6_addr_off = true →
  addr_is_local sa = true
  ↔ Spec.ipv4_local (bytes_at sa (sin6_addr_off + 12) 4).
Proof.
  intros Hfam Hmap. destruct (v4mapped_excludes _ _ Hmap) as [Hlo Hll].
  unfold addr_is_local. cbv zeta. rewrite Hfam, Hlo, Hll, Hmap.
  change (AF_INET6 =? AF_INET) with false.
  change (AF_INET6 =? AF_INET6) with true. cbv iota.
  apply ipv4_local_test.
Qed.

Lemma addr_is_local_inet sa :
  sa_family sa = AF_INET →
  addr_is_local sa = true ↔ Spec.ipv4_local (bytes_at sa sin_addr_off 4).
Proof.
  intros Hfam. unfold addr_is_local. cbv zeta. rewrite Hfam.
  change (AF_INET =? AF_INET) with true. cbv iota. apply ipv4_local_test.
Qed.

(** X8: on an IPv4 record [addr_map_inet6_v4mapped] succeeds; the length
    it stores is the one [addr_get_len] gives for the new record; the new
    record has the port of the original and is local exactly when the
    original is; and unless it is local it counts as a temporary IPv6
    address. *)
Theorem addr_map_inet6_v4mapped_class ss len :
  sa_family ss = AF_INET → (sizeof_sockaddr_in6 ≤ length ss)%nat →
  let '(r, ss', len') := addr_map_inet6_v4mapped ss len in
  r = true
  ∧ len' = addr_get_len ss'
  ∧ addr_get_port ss' = addr_get_port ss
  ∧ addr_is_local ss' = addr_is_local ss
  ∧ addr_is_temp_inet6 ss' = negb (addr_is_local ss).
Proof.
  intros Hfam Hlen.
  destruct (addr_map_inet6_v4mapped_inet ss len Hfam Hlen)
    as (ss' & -> & Hlen' & Hfam' & Hport & Haddr).
  assert (IN6_IS_ADDR_V4MAPPED ss' sin6_addr_off = true) as Hmap.
  { apply IN6_IS_ADDR_V4MAPPED_spec. unfold Spec.in6_v4mapped.
    by rewrite Haddr. }
  assert (addr_is_local ss' = addr_is_local ss) as Hloc.
  { apply eq_true_iff_eq.
    rewrite addr_is_local_mapped, addr_is_local_inet by done.
    rewrite <- (bytes_at_drop _ _ 16 12), Haddr by lia. done. }
  split; [done|]. split; [|split; [|split; [done|]]].
  - unfold addr_get_len. by rewrite Hfam'.
  - apply bytes_at_2_load16 in Hport.
    unfold addr_get_port. rewrite Hfam, Hfam'. by rewrite Hport.
  - rewrite <- Hloc. destruct (addr_is_local ss') eqn:E.
    + unfold addr_is_temp_inet6. rewrite E.
      by destruct (sa_family ss' =? AF_INET6).
    + rewrite addr_is_temp_inet6_nonlocal by done. by rewrite Haddr.
Qed.

Lemma addr_map_inet6_v4mapped_class_witness :
  addr_is_temp_inet6
    (addr_map_inet6_v4mapped (Samples.inet 8 8 8 8 53) 16).1.2
  = true.
Proof.
  assert (sizeof_sockaddr_in6 ≤ sizeof_sockaddr_storage)%nat as Hlen
    by (unfold sizeof_sockaddr_in6, sizeof_sockaddr_storage; lia).
  pose proof (addr_map_inet6_v4mapped_class (Samples.inet 8 8 8 8 53) 16
                eq_refl Hlen) as H.
  destruct (addr_map_inet6_v4mapped (Samples.inet 8 8 8 8 53) 16)
    as [[r ss'] len'].
  cbn [fst snd]. destruct H as (_ & _ & _ & _ & ->). reflexivity.
Defined.

(** X9: on an IPv6 record that holds an IPv4-mapped address
    [addr_unmap_inet6_v4mapped] succeeds; the length it stores is the one
    [addr_get_len] gives for the new record; the new record has the port
    of the original, is local exactly when the original is, and is no
    temporary IPv6 address. *)
Theorem addr_unmap_inet6_v4mapped_class sa len :
  sa_family sa = AF_INET6 →
  IN6_IS_ADDR_V4MAPPED sa sin6_addr_off = true →
  (sizeof_sockaddr_in ≤ length sa)%nat →
  let '(r, sa', len') := addr_unmap_inet6_v4mapped sa len in
  r = true
  ∧ len' = addr_get_len sa'
  ∧ addr_get_port sa' = addr_get_port sa
  ∧ addr_is_local sa' = addr_is_local sa
  ∧ addr_is_temp_inet6 sa' = false.
Proof.
  intros Hfam Hmap Hlen.
  destruct (addr_unmap_inet6_v4mapped_mapped sa len Hfam Hmap Hlen)
    as (sa' & -> & Hlen' & Hfam' & Hport & Haddr).
  split; [done|]. split; [|split; [|split]].
  - unfold addr_get_len. by rewrite Hfam'.
  - apply bytes_at_2_load16 in Hport.
    unfold addr_get_port. rewrite Hfam, Hfam'. by rewrite Hport.
  - apply eq_true_iff_eq.
    rewrite (addr_is_local_mapped sa), (addr_is_local_inet sa') by done.
    by rewrite Haddr.
  - unfold addr_is_temp_inet6. by rewrite Hfam'.
Qed.

Lemma addr_unmap_inet6_v4mapped_class_witness :
  addr_is_local
    (addr_unmap_inet6_v4mapped
       (Samples.inet6 (Samples.v4mapped 127 0 0 1) 80) 28).1.2
  = true.
Proof.
  assert (sizeof_sockaddr_in ≤ sizeof_sockaddr_storage)%nat as Hlen
    by (unfold sizeof_sockaddr_in, sizeof_sockaddr_storage; lia).
  pose proof (addr_unmap_inet6_v4mapped_class
                (Samples.inet6 (Samples.v4mapped 127 0 0 1) 80) 28
                eq_refl eq_refl Hlen) as H.
  destruct (addr_unmap_inet6_v4mapped
              (Samples.inet6 (Samples.v4mapped 127 0 0 1) 80) 28)
    as [[r sa'] len'].
  cbn [fst snd]. destruct H as (_ & _ & _ & -> & _). reflexivity.
Defined.

(** Two buffers of one length that read alike from offset [k] on are the
    same from there on. *)
Lemma drop_load8_ext (a b : list byte) k :
  length a = length b →
  (∀ i, (k ≤ i)%nat → load8 a i = load8 b i) →
  drop k a = drop k b.
Proof.
  intros Hlen H. apply list_eq. intros i. rewrite !lookup_drop.
  destruct (decide (k + i < length a)%nat) as [Hi|Hi].
  - destruct (lookup_lt_is_Some_2 a (k + i) Hi) as [x Hx].
    destruct (lookup_lt_is_Some_2 b (k + i) ltac:(lia)) as [y Hy].
    specialize (H (k + i)%nat ltac:(lia)). unfold load8 in H.
    rewrite Hx, Hy in H. simpl in H. by rewrite Hx, Hy, H.
  - by rewrite !lookup_ge_None_2 by lia.
Qed.

(** X10: [addr_map_inet6_v4mapped] on an IPv4 record keeps the size of
    the buffer, writes nothing from offset [sizeof(struct sockaddr_in6)]
    on, and leaves the flow information and the scope identifier of the
    new IPv6 record zero. *)
Theorem addr_map_inet6_v4mapped_frame ss len :
  sa_family ss = AF_INET → (sizeof_sockaddr_in6 ≤ length ss)%nat →
  let ss' := (addr_map_inet6_v4mapped ss len).1.2 in
  length ss' = length ss
  ∧ drop sizeof_sockaddr_in6 ss' = drop sizeof_sockaddr_in6 ss
  ∧ bytes_at ss' sin6_flowinfo_off 4 = replicate 4 x00
  ∧ bytes_at ss' sin6_scope_id_off 4 = replicate 4 x00.
Proof.
  intros Hfam Hlen. cbv zeta. unfold addr_map_inet6_v4mapped.
  rewrite Hfam. simpl negb. cbv iota zeta. cbn [fst snd].
  unfold sin6_flowinfo_off, sin6_scope_id_off. unfold_layout.
  split; [by mem_simpl|]. split; [|split].
  - apply drop_load8_ext; [by mem_simpl|]. intros i Hi. by mem_simpl.
  - apply bytes_at_const. intros i Hi. by mem_simpl.
  - apply bytes_at_const. intros i Hi. by mem_simpl.
Qed.

Lemma addr_map_inet6_v4mapped_frame_witness :
  drop sizeof_sockaddr_in6
    (addr_map_inet6_v4mapped (Samples.inet 8 8 8 8 53) 16).1.2
  = drop sizeof_sockaddr_in6 (Samples.inet 8 8 8 8 53).
Proof.
  assert (sizeof_sockaddr_in6 ≤ sizeof_sockaddr_storage)%nat as Hlen
    by (unfold sizeof_sockaddr_in6, sizeof_sockaddr_storage; lia).
  exact (proj1 (proj2 (addr_map_inet6_v4mapped_frame
                         (Samples.inet 8 8 8 8 53) 16 eq_refl Hlen))).
Defined.

(** X11: [addr_unmap_inet6_v4mapped] on an IPv4-mapped record keeps the
    size of the buffer, writes nothing from offset
    [sizeof(struct sockaddr_in)] on, so that the bytes of the IPv6 record
    beyond it stay where they were, and leaves the padding of the new
    IPv4 record zero. *)
Theorem addr_unmap_inet6_v4mapped_frame sa len :
  sa_family sa = AF_INET6 →
  IN6_IS_ADDR_V4MAPPED sa sin6_addr_off = true →
  (sizeof_sockaddr_in ≤ length sa)%nat →
  let sa' := (addr_unmap_inet6_v4mapped sa len).1.2 in
  length sa' = length sa
  ∧ drop sizeof_sockaddr_in sa' = drop sizeof_sockaddr_in sa
  ∧ bytes_at sa' (sin_addr_off + 4) 8 = replicate 8 x00.
Proof.
  intros Hfam Hmap Hlen. cbv zeta. unfold addr_unmap_inet6_v4mapped.
  rewrite Hfam, Hmap. simpl negb. cbv iota zeta. cbn [fst snd].
  unfold_layout.
  split; [by mem_simpl|]. split.
  - apply drop_load8_ext; [by mem_simpl|]. intros i Hi. by mem_simpl.
  - apply bytes_at_const. intros i Hi. by mem_simpl.
Qed.

Lemma addr_unmap_inet6_v4mapped_frame_witness :
  drop sizeof_sockaddr_in
    (addr_unmap_inet6_v4mapped
       (Samples.inet6 (Samples.v4mapped 192 0 2 7) 3478) 28).1.2
  = drop sizeof_sockaddr_in
      (Samples.inet6 (Samples.v4mapped 192 0 2 7) 3478).
Proof.
  assert (sizeof_sockaddr_in ≤ sizeof_sockaddr_storage)%nat as Hlen
    by (unfold sizeof_sockaddr_in, sizeof_sockaddr_storage; lia).
  exact (proj1 (proj2 (addr_unmap_inet6_v4mapped_frame
                         (Samples.inet6 (Samples.v4mapped 192 0 2 7) 3478)
                         28 eq_refl eq_refl Hlen))).
Defined.

(** X12: neither conversion applies twice.  After
    [addr_map_inet6_v4mapped] has converted an IPv4 record, a second call
    returns false and changes neither the record nor the length; and so
    for [addr_unmap_inet6_v4mapped] after it has converted an
    IPv4-mapped record. *)
Theorem conversion_not_twice :
  (∀ ss len,
     sa_family ss = AF_INET → (sizeof_sockaddr_in6 ≤ length ss)%nat →
     let '(_, ss', len') := addr_map_inet6_v4mapped ss len in
     addr_map_inet6_v4mapped ss' len' = (false, ss', len'))
  ∧ (∀ sa len,
       sa_family sa = AF_INET6 →
       IN6_IS_ADDR_V4MAPPED sa sin6_addr_off = true →
       (sizeof_sockaddr_in ≤ length sa)%nat →
       let '(_, sa', len') := addr_unmap_inet6_v4mapped sa len in
       addr_unmap_inet6_v4mapped sa' len' = (false, sa', len')).
Proof.
  split.
  - intros ss len Hfam Hlen.
    destruct (addr_map_inet6_v4mapped_inet ss len Hfam Hlen)
      as (ss' & -> & _ & Hfam' & _).
    unfold addr_map_inet6_v4mapped. by rewrite Hfam'.
  - intros sa len Hfam Hmap Hlen.
    destruct (addr_unmap_inet6_v4mapped_mapped sa len Hfam Hmap Hlen)
      as (sa' & -> & _ & Hfam' & _).
    unfold addr_unmap_inet6_v4mapped. by rewrite Hfam'.
Qed.

Lemma conversion_not_twice_witness :
  (let '(_, ss', len') :=
     addr_map_inet6_v4mapped (Samples.inet 8 8 8 8 53) 16 in
   fst (fst (addr_map_inet6_v4mapped ss' len')))
  = false.
Proof.
  assert (sizeof_sockaddr_in6 ≤ sizeof_sockaddr_storage)%nat as Hlen
    by (unfold sizeof_sockaddr_in6, sizeof_sockaddr_storage; lia).
  pose proof (proj1 conversion_not_twice (Samples.inet 8 8 8 8 53) 16
                eq_refl Hlen) as H.
  destruct (addr_map_inet6_v4mapped (Samples.inet 8 8 8 8 53) 16)
    as [[r ss'] len'].
  by rewrite H.
Defined.

(** X13: conversion does not change what [addr_is_equal] answers.  Two
    IPv4 records compare after [addr_map_inet6_v4mapped] as they did
    before, and two IPv4-mapped records compare after
    [addr_unmap_inet6_v4mapped] as they did before, with or without the
    ports. *)
Theorem conversion_keeps_equality (compare_ports : bool) :
  (∀ a b la lb,
     sa_family a = AF_INET → sa_family b = AF_INET →
     (sizeof_sockaddr_in6 ≤ length a)%nat →
     (sizeof_sockaddr_in6 ≤ length b)%nat →
     addr_is_equal (addr_map_inet6_v4mapped a la).1.2
       (addr_map_inet6_v4mapped b lb).1.2 compare_ports
     = addr_is_equal a b compare_ports)
  ∧ (∀ a b la lb,
       sa_family a = AF_INET6 → sa_family b = AF_INET6 →
       IN6_IS_ADDR_V4MAPPED a sin6_addr_off = true →
       IN6_IS_ADDR_V4MAPPED b sin6_addr_off = true →
       (sizeof_sockaddr_in ≤ length a)%nat →
       (sizeof_sockaddr_in ≤ length b)%nat →
       addr_is_equal (addr_unmap_inet6_v4mapped a la).1.2
         (addr_unmap_inet6_v4mapped b lb).1.2 compare_ports
       = addr_is_equal a b compare_ports).
Proof.
  assert (AF_INET ≠ AF_INET6) as Hne by done.
  split.
  - intros a b la lb Fa Fb La Lb.
    destruct (addr_map_inet6_v4mapped_inet a la Fa La)
      as (a' & -> & _ & Fa' & Pa & Aa).
    destruct (addr_map_inet6_v4mapped_inet b lb Fb Lb)
      as (b' & -> & _ & Fb' & Pb & Ab).
    cbn [fst snd]. apply eq_true_iff_eq.
    rewrite !addr_is_equal_true, Fa, Fb, Fa', Fb'.
    change sin6_port_off with sin_port_off in *. rewrite Pa, Pb, Aa, Ab. split.
    + intros (_ & [[? _]|[_ H]] & Hp); [congruence|].
      apply app_inv_head, app_inv_head in H.
      split; [done|]. split; [by left|done].
    + intros (_ & [[_ H]|[? _]] & Hp); [|congruence].
      split; [done|]. split; [right; split; [done|by rewrite H]|done].
  - intros a b la lb Fa Fb Ma Mb La Lb.
    destruct (addr_unmap_inet6_v4mapped_mapped a la Fa Ma La)
      as (a' & -> & _ & Fa' & Pa & Aa).
    destruct (addr_unmap_inet6_v4mapped_mapped b lb Fb Mb Lb)
      as (b' & -> & _ & Fb' & Pb & Ab).
    apply IN6_IS_ADDR_V4MAPPED_spec, in6_v4mapped_bytes in Ma, Mb.
    cbn [fst snd]. apply eq_true_iff_eq.
    rewrite !addr_is_equal_true, Fa, Fb, Fa', Fb'.
    change sin6_port_off with sin_port_off in *. rewrite Pa, Pb, Aa, Ab, Ma, Mb. split.
    + intros (_ & [[_ H]|[? _]] & Hp); [|congruence].
      split; [done|]. split; [right; split; [done|by rewrite H]|done].
    + intros (_ & [[? _]|[_ H]] & Hp); [congruence|].
      apply app_inv_head, app_inv_head in H.
      split; [done|]. split; [by left|done].
Qed.

Lemma conversion_keeps_equality_witness :
  addr_is_equal (addr_map_inet6_v4mapped (Samples.inet 8 8 8 8 1) 16).1.2
    (addr_map_inet6_v4mapped (Samples.inet 8 8 8 8 2) 16).1.2 false
  = true.
Proof.
  assert (sizeof_sockaddr_in6 ≤ sizeof_sockaddr_storage)%nat as Hlen
    by (unfold sizeof_sockaddr_in6, sizeof_sockaddr_storage; lia).
  by rewrite (proj1 (conversion_keeps_equality false)
                (Samples.inet 8 8 8 8 1) (Samples.inet 8 8 8 8 2) 16 16
                eq_refl eq_refl Hlen Hlen).
Defined.

(** ** Resolution: the count, the array and the candidates *)

(** The count the loop returns depends on the list and on the count it
    starts from alone. *)
Lemma resolve_loop_fst ai ret records end_ arr records' end' arr' :
  fst (resolve_loop ai ret records end_ arr)
  = fst (resolve_loop ai ret records' end' arr').
Proof.
  revert ret records arr records' arr'.
  induction ai as [|a ai IH]; intros ret records arr records' arr'; [done|].
  cbn [resolve_loop].
  destruct ((ai_family a =? AF_INET) || (ai_family a =? AF_INET6)); [|done].
  destruct (negb (records =? end_)%nat), (negb (records' =? end')%nat); done.
Qed.

(** Whatever the count does, the loop writes between its two pointers
    only. *)
Lemma resolve_loop_frame ai ret (filled room rest : list addr_record_t) :
  ∃ room',
    snd (resolve_loop ai ret (length filled) (length filled + length room)
           (filled ++ room ++ rest))
    = filled ++ room' ++ rest
    ∧ length room' = length room.
Proof.
  revert ret filled room.
  induction ai as [|a ai IH]; intros ret filled room; [by exists room|].
  cbn [resolve_loop].
  destruct ((ai_family a =? AF_INET) || (ai_family a =? AF_INET6));
    [|apply IH].
  destruct room as [|r room].
  - rewrite Nat.add_0_r, Nat.eqb_refl. cbn [negb].
    specialize (IH (int_incr ret) filled []).
    by rewrite Nat.add_0_r in IH.
  - replace (length filled =? length filled + length (r :: room))%nat
      with false by (symmetry; apply Nat.eqb_neq; cbn [length]; lia).
    cbn [negb].
    replace (alter (write_record a) (length filled)
               (filled ++ (r :: room) ++ rest))
      with ((filled ++ [write_record a r]) ++ room ++ rest).
    2:{ rewrite alter_app_r_alt, Nat.sub_diag by lia.
        by rewrite <- app_assoc. }
    destruct (IH (int_incr ret) (filled ++ [write_record a r]) room)
      as (room' & Hsnd & Hlen).
    rewrite length_app in Hsnd. cbn [length] in *.
    replace (S (length filled)) with (length filled + 1)%nat by lia.
    replace (length filled + S (length room))%nat
      with (length filled + 1 + length room)%nat by lia.
    exists (write_record a r :: room'). rewrite Hsnd.
    split; [by rewrite <- app_assoc|]. cbn [length]. lia.
Qed.

(** Nodes of other families do not count. *)
Lemma resolve_loop_filter ai ret records end_ arr :
  resolve_loop ai ret records end_ arr
  = resolve_loop (List.filter Spec.candidate ai) ret records end_ arr.
Proof.
  revert ret records arr.
  induction ai as [|a ai IH]; intros ret records arr; [done|].
  cbn [resolve_loop List.filter].
  change ((ai_family a =? AF_INET) || (ai_family a =? AF_INET6))
    with (Spec.candidate a).
  destruct (Spec.candidate a) eqn:Hcand; [|apply IH].
  cbn [resolve_loop].
  change ((ai_family a =? AF_INET) || (ai_family a =? AF_INET6))
    with (Spec.candidate a).
  rewrite Hcand. destruct (negb (records =? end_)%nat); apply IH.
Qed.

(** X14: what [addr_resolve] returns for a host name and a service
    depends neither on the array it is given nor on the capacity. *)
Theorem addr_resolve_count_any_capacity `{Resolver} hostname service
    (records records' : list addr_record_t) (count count' : nat) :
  fst (addr_resolve hostname service records count)
  = fst (addr_resolve hostname service records' count').
Proof.
  unfold addr_resolve.
  destruct (getaddrinfo hostname service addr_resolve_hints) as [rc ai_list].
  destruct (negb (rc =? 0)); [done|]. apply resolve_loop_fst.
Qed.

(** X15: whatever the resolver answers, failure or any number of
    candidates, [addr_resolve] keeps the size of the array and leaves
    every record from index [count] on as it was. *)
Theorem addr_resolve_frame `{Resolver} hostname service
    (records : list addr_record_t) (count : nat) :
  (count ≤ length records)%nat →
  let records' := snd (addr_resolve hostname service records count) in
  length records' = length records
  ∧ drop count records' = drop count records.
Proof.
  intros Hcount. cbv zeta. unfold addr_resolve.
  destruct (getaddrinfo hostname service addr_resolve_hints) as [rc ai_list].
  destruct (negb (rc =? 0)); [done|].
  destruct (resolve_loop_frame ai_list 0 [] (take count records)
              (drop count records)) as (room' & Hsnd & Hlen).
  cbn [length app] in Hsnd.
  rewrite take_drop, length_take_le in Hsnd by done.
  rewrite length_take_le in Hlen by done.
  rewrite Hsnd. split.
  - rewrite <- (take_drop count records) at 2.
    rewrite !length_app, length_take_le by done. lia.
  - by rewrite drop_app_length' by done.
Qed.

Lemma addr_resolve_frame_witness :
  drop 1 (snd (@addr_resolve Samples.resolver "localhost" "80"
                 (Samples.blank_records 3) 1))
  = Samples.blank_records 2.
Proof.
  apply (@addr_resolve_frame Samples.resolver "localhost" "80"
           (Samples.blank_records 3) 1).
  simpl. lia.
Defined.

(** X16: nodes of the resolver whose family is neither IPv4 nor IPv6 have
    no part in the outcome: two successful resolutions whose lists hold
    the same IPv4 and IPv6 nodes in the same order give the same result
    and the same array. *)
Theorem addr_resolve_candidates_only `{Resolver} hostname1 service1
    hostname2 service2 ai_list1 ai_list2
    (records : list addr_record_t) (count : nat) :
  getaddrinfo hostname1 service1 addr_resolve_hints = (0, ai_list1) →
  getaddrinfo hostname2 service2 addr_resolve_hints = (0, ai_list2) →
  List.filter Spec.candidate ai_list1 = List.filter Spec.candidate ai_list2 →
  addr_resolve hostname1 service1 records count
  = addr_resolve hostname2 service2 records count.
Proof.
  intros H1 H2 Hsame. unfold addr_resolve. rewrite H1, H2. cbn [Z.eqb negb].
  rewrite (resolve_loop_filter ai_list1), (resolve_loop_filter ai_list2).
  by rewrite Hsame.
Qed.

Lemma addr_resolve_candidates_only_witness :
  @addr_resolve Samples2.resolver2 "localhost" "80" (Samples.blank_records 2) 2
  = @addr_resolve Samples2.resolver2 "loopback" "80" (Samples.blank_records 2) 2.
Proof.
  by apply (@addr_resolve_candidates_only Samples2.resolver2 "localhost" "80"
              "loopback" "80" Samples.localhost_nodes Samples2.loopback_nodes).
Defined.

(** X17: the sign of the result tells failure from success.  With no
    more candidates than an [int] can count, [addr_resolve] returns a
    negative value exactly when the resolver failed, and on success a
    value between 0 and the number of nodes of the resolver. *)
Theorem addr_resolve_sign `{Resolver} hostname service
    (records : list addr_record_t) (count : nat) rc ai_list :
  getaddrinfo hostname service addr_resolve_hints = (rc, ai_list) →
  Z.of_nat (length (List.filter Spec.candidate ai_list)) ≤ INT_MAX →
  (fst (addr_resolve hostname service records count) < 0 ↔ rc ≠ 0)
  ∧ (rc = 0 →
     0 ≤ fst (addr_resolve hostname service records count)
       ≤ Z.of_nat (length ai_list)).
Proof.
  intros Hres Hmax. unfold addr_resolve. rewrite Hres.
  destruct (Z.eqb_spec rc 0) as [E|E]; cbn [negb fst]; [|split; [|done]; lia].
  rewrite (resolve_loop_fst _ _ _ _ _ 0%nat 0%nat []).
  pose proof (resolve_loop_spec ai_list 0 [] [] [] ltac:(lia) ltac:(lia))
    as Hloop.
  cbv zeta in Hloop. cbn [length app Nat.add] in Hloop. rewrite Hloop.
  cbn [fst]. pose proof (filter_length_le Spec.candidate ai_list).
  split; [|lia]. split; [lia|done].
Qed.

Lemma addr_resolve_sign_witness :
  0 ≤ fst (@addr_resolve Samples.resolver "localhost" "80"
             (Samples.blank_records 2) 0) ≤ 3.
Proof.
  apply (@addr_resolve_sign Samples.resolver "localhost" "80"
           (Samples.blank_records 2) 0 0 Samples.localhost_nodes eq_refl);
    [by vm_compute|done].
Defined.

Lemma zip_with_write_record_len (ais : list addrinfo)
    (rs : list addr_record_t) :
  (length ais ≤ length rs)%nat →
  map len (zip_with write_record ais rs) = map ai_addrlen ais.
Proof.
  revert rs. induction ais as [|a ais IH]; intros [|r rs] Hlen; simpl in *;
    try done; try lia.
  f_equal. apply IH. lia.
Qed.

(** X18: the two calls of a caller that sizes its array first.  On a
    successful resolution with no more candidates than an [int] can
    count, a call with capacity 0 leaves the array as it is, and a second
    call whose capacity is the value [n] the first returned returns [n]
    again and stores the length of every candidate, in the order of the
    resolver, in the first [n] records. *)
Theorem addr_resolve_two_calls `{Resolver} hostname service
    (records : list addr_record_t) ai_list :
  getaddrinfo hostname service addr_resolve_hints = (0, ai_list) →
  let found := List.filter Spec.candidate ai_list in
  Z.of_nat (length found) ≤ INT_MAX →
  let n := Z.to_nat (fst (addr_resolve hostname service records 0)) in
  (n ≤ length records)%nat →
  snd (addr_resolve hostname service records 0) = records
  ∧ fst (addr_resolve hostname service records n) = Z.of_nat n
  ∧ map len (take n (snd (addr_resolve hostname service records n)))
    = map ai_addrlen found.
Proof.
  intros Hres found Hmax. cbv zeta. unfold addr_resolve. rewrite Hres.
  cbn [Z.eqb negb Nat.add].
  pose proof (resolve_loop_spec ai_list 0 [] [] records
                ltac:(lia) ltac:(by fold found)) as H0.
  cbv zeta in H0. cbn [length app Nat.add] in H0. fold found in H0.
  rewrite Nat.min_0_r in H0. cbn [take zip_with drop app] in H0.
  rewrite H0. cbn [fst snd]. rewrite Z.add_0_l, Nat2Z.id.
  intros Hn. split; [done|].
  pose proof (resolve_loop_spec ai_list 0 [] (take (length found) records)
                (drop (length found) records)
                ltac:(lia) ltac:(by fold found)) as Hloop.
  cbv zeta in Hloop. cbn [length app] in Hloop. fold found in Hloop.
  rewrite take_drop, length_take_le, Nat.min_id in Hloop by done.
  cbn [Nat.add] in Hloop.
  rewrite Hloop. cbn [fst snd]. split; [lia|].
  rewrite take_app_length'.
  2:{ rewrite length_app, length_zip_with, length_drop, !length_take. lia. }
  rewrite map_app, drop_ge, app_nil_r by (rewrite length_take; lia).
  rewrite firstn_all. apply zip_with_write_record_len.
  rewrite !length_take. lia.
Qed.

Lemma addr_resolve_two_calls_witness :
  map len (take 2 (snd (@addr_resolve Samples.resolver "localhost" "80"
                          (Samples.blank_records 3) 2)))
  = [28; 16].
Proof.
  assert (2 ≤ length (Samples.blank_records 3))%nat as Hn by (simpl; lia).
  assert (Z.of_nat (length (List.filter Spec.candidate Samples.localhost_nodes))
          ≤ INT_MAX) as Hmax by (vm_compute; discriminate).
  exact (proj2 (proj2 (@addr_resolve_two_calls Samples.resolver "localhost"
                         "80" (Samples.blank_records 3)
                         Samples.localhost_nodes eq_refl Hmax Hn))).
Defined.
